(** * Release tracker of [variantdev/mod]: a shallow embedding

    The package [releasetracker] discovers the versions of an artifact
    (git tags, GitHub releases, Docker Hub tags, or a document addressed by a
    JSON path), parses them as semantic versions and answers "latest version
    satisfying a constraint".  This file embeds the Go code as Rocq functions
    and proves properties of it.

    Conventions.
    - A Go function returning [(T, error)] returns a [result T]; a run-time
      panic (a failed type assertion) is the third outcome [Panic].
    - The diagnostic logger is a writer effect: functions that may log live in
      [M], a [result] paired with the lines logged, in order.
    - Collaborators held by the [Tracker] (file system, command site, HTTP
      getter, dependency resolver) are fields of the record [Tracker];
      third-party libraries whose result the code only passes on (YAML
      decoding, JSON path evaluation, constraint compilation, [sort.Sort],
      [%q] and [%v] formatting) are the fields of the record [Lib], so every
      general theorem holds for every behaviour of them.
    - A Go map is an association list whose order is the order in which this
      run's [range] statement visits the entries (Go leaves it unspecified). *)

From Stdlib Require Import List String Ascii ZArith NArith Bool Lia.
From Stdlib Require Import Permutation Sorted DecimalString.
Import ListNotations.

Local Open Scope string_scope.
Local Open Scope list_scope.

Infix "+++" := String.append (at level 60, right associativity).

(** ** Results, panics and the logging effect *)

Definition error := string.

Inductive result (A : Type) : Type :=
| Ok (a : A)
| Err (e : error)
| Panic (msg : string).

Arguments Ok {A} a.
Arguments Err {A} e.
Arguments Panic {A} msg.

Definition rbind {A B : Type} (r : result A) (k : A -> result B) : result B :=
  match r with
  | Ok a => k a
  | Err e => Err e
  | Panic m => Panic m
  end.

Definition M (A : Type) : Type := (list string * result A)%type.

Definition ret {A : Type} (a : A) : M A := ([], Ok a).

Definition lift {A : Type} (r : result A) : M A := ([], r).

Definition logInfo (line : string) : M unit := ([line], Ok tt).

Definition bind {A B : Type} (m : M A) (k : A -> M B) : M B :=
  match m with
  | (l, Ok a) => let (l', r) := k a in (l ++ l', r)
  | (l, Err e) => (l, Err e)
  | (l, Panic s) => (l, Panic s)
  end.

Declare Scope res_scope.
Delimit Scope res_scope with res.
Declare Scope m_scope.
Delimit Scope m_scope with m.

Notation "x <- e ;; k" := (rbind e (fun x => k))
  (at level 61, e at next level, right associativity) : res_scope.
Notation "x <- e ;; k" := (bind e (fun x => k))
  (at level 61, e at next level, right associativity) : m_scope.

(** The double quote and the line feed, as one-character strings. *)
Definition dq : string := String "034"%char EmptyString.
Definition nl : ascii := "010"%char.

(** [strings.Split(s, sep)] for a separator of one byte. *)
Fixpoint Split (s : string) (sep : ascii) : list string :=
  match s with
  | EmptyString => [EmptyString]
  | String c r =>
      if Ascii.eqb c sep then EmptyString :: Split r sep
      else match Split r sep with
           | h :: t => String c h :: t
           | [] => [String c EmptyString]
           end
  end.

(** [strings.Join(l, sep)]. *)
Fixpoint Join (l : list string) (sep : string) : string :=
  match l with
  | [] => EmptyString
  | [x] => x
  | x :: r => x +++ sep +++ Join r sep
  end.

(** [%d] of an integer. *)
Definition fmt_d (z : Z) : string := NilZero.string_of_int (Z.to_int z).

(** [%v] of a [[]string]: the elements between brackets, separated by spaces. *)
Definition fmt_strings (l : list string) : string := "[" +++ Join l " " +++ "]".

(** [contains s sub]: [sub] occurs in [s]. *)
Definition contains (s sub : string) : Prop :=
  exists a b : string, s = a +++ sub +++ b.

(** ** Comparison functions

    A comparison function that is antisymmetric and transitive on [<=] is a
    total preorder.  [lex2] orders pairs on the first component, then on the
    second; [lexl] orders lists field by field, a proper prefix first. *)

Record total_preorder {A : Type} (c : A -> A -> comparison) : Prop := {
  tp_antisym : forall x y, c y x = CompOpp (c x y);
  tp_trans : forall x y z, c x y <> Gt -> c y z <> Gt -> c x z <> Gt
}.

Definition lex2 {A B : Type} (c : A -> A -> comparison)
  (d : B -> B -> comparison) (x y : A * B) : comparison :=
  match c (fst x) (fst y) with
  | Eq => d (snd x) (snd y)
  | r => r
  end.

Fixpoint lexl {A : Type} (c : A -> A -> comparison) (s o : list A)
  : comparison :=
  match s, o with
  | [], [] => Eq
  | [], _ :: _ => Lt
  | _ :: _, [] => Gt
  | a :: s', b :: o' =>
      match c a b with
      | Eq => lexl c s' o'
      | d => d
      end
  end.

(** ** The semantic-version library, as the tracker uses it

    Modelled from the spec: [github.com/Masterminds/semver] is a dependency
    whose source is not among the sources of the repository.  The definitions
    below follow section 4.1 of the specification and the behaviour the
    library documents: the accepted grammar
    [v?MAJOR(.MINOR)?(.PATCH)?(-PRE)?(+META)?] with segments that fit a signed
    64-bit integer, [original] keeping the parsed string, the rendering
    [MAJOR.MINOR.PATCH[-PRE][+META]] of [String()], and standard precedence
    (numbers first, a pre-release below its release, identifiers field by
    field, numeric below alphanumeric, build metadata ignored).  [Compare]
    returns a [comparison]: [Lt], [Eq], [Gt] stand for the library's -1, 0, 1. *)

Module semver.

Record Version : Type := mkVersion {
  major : Z;
  minor : Z;
  patch : Z;
  pre : string;
  metadata : string;
  original : string
}.

(** The Go zero value of the struct, as in [var latestVer semver.Version]. *)
Definition zero : Version :=
  mkVersion 0 0 0 EmptyString EmptyString EmptyString.

Definition ErrInvalidSemVer : error := "Invalid Semantic Version".

Definition in_range (lo hi : N) (c : ascii) : bool :=
  let n := N_of_ascii c in ((lo <=? n) && (n <=? hi))%N.

Definition is_digit (c : ascii) : bool := in_range 48 57 c.

(** The class [[0-9A-Za-z\-]] of identifier characters. *)
Definition is_ident_char (c : ascii) : bool :=
  is_digit c || in_range 65 90 c || in_range 97 122 c || Ascii.eqb c "-".

Fixpoint all_chars (f : ascii -> bool) (s : string) : bool :=
  match s with
  | EmptyString => true
  | String c r => f c && all_chars f r
  end.

Definition is_empty (s : string) : bool :=
  match s with EmptyString => true | _ => false end.

(** Longest prefix whose characters satisfy [f], and the rest. *)
Fixpoint span (f : ascii -> bool) (s : string) : string * string :=
  match s with
  | EmptyString => (EmptyString, EmptyString)
  | String c r =>
      if f c then let (a, b) := span f r in (String c a, b)
      else (EmptyString, s)
  end.

Definition digit_val (c : ascii) : Z := Z.of_N (N_of_ascii c) - 48.

Fixpoint atoi (s : string) (acc : Z) : Z :=
  match s with
  | EmptyString => acc
  | String c r => atoi r (10 * acc + digit_val c)
  end.

Definition max_int64 : Z := 9223372036854775807.

(** [strconv.ParseInt(s, 10, 64)] on a non-empty string of digits, wrapped as
    [NewVersion] wraps its failure. *)
Definition ParseInt (s : string) : result Z :=
  let n := atoi s 0 in
  if (n <=? max_int64)%Z then Ok n
  else Err ("Error parsing version segment: strconv.ParseInt: parsing "
            +++ dq +++ s +++ dq +++ ": value out of range").

(** [[0-9A-Za-z\-]+(\.[0-9A-Za-z\-]+)*]: dot-separated, non-empty identifiers. *)
Definition valid_idents (s : string) : bool :=
  forallb (fun id => negb (is_empty id) && all_chars is_ident_char id)
          (Split s ".").

Definition valid_opt (m : option string) : bool :=
  match m with
  | None => true
  | Some s => valid_idents s
  end.

(** The optional group [(\.[0-9]+)?]. *)
Definition opt_segment (s : string) : option string * string :=
  match s with
  | String "." r =>
      let (d, r') := span is_digit r in
      if is_empty d then (None, s) else (Some d, r')
  | _ => (None, s)
  end.

Definition segment_value (m : option string) : result Z :=
  match m with
  | None => Ok 0%Z
  | Some d => ParseInt d
  end.

Definition opt_string (m : option string) : string :=
  match m with
  | None => EmptyString
  | Some s => s
  end.

(** The optional leading [v]. *)
Definition strip_v (v : string) : string :=
  match v with
  | String "v" r => r
  | _ => v
  end.

(** The optional group [(-(IDENTS))?]: the pre-release runs up to the next
    [+] or to the end. *)
Definition opt_pre (s : string) : option string * string :=
  match s with
  | String "-" r =>
      let (p, r') := span (fun c => negb (Ascii.eqb c "+")) r in (Some p, r')
  | _ => (None, s)
  end.

(** The optional group [(\+(IDENTS))?]: the metadata runs to the end. *)
Definition opt_meta (s : string) : option string * string :=
  match s with
  | String "+" r => (Some r, EmptyString)
  | _ => (None, s)
  end.

(** [semver.NewVersion]: match the anchored version expression, then convert
    the numeric segments. *)
Definition NewVersion (v : string) : result Version :=
  let (m1, r1) := span is_digit (strip_v v) in
  if is_empty m1 then Err ErrInvalidSemVer else
  let (m2, r2) := opt_segment r1 in
  let (m3, r3) := opt_segment r2 in
  let (m5, r4) := opt_pre r3 in
  let (m8, r5) := opt_meta r4 in
  if valid_opt m5 && valid_opt m8 && is_empty r5 then
    (ma <- ParseInt m1 ;;
     mi <- segment_value m2 ;;
     pa <- segment_value m3 ;;
     Ok (mkVersion ma mi pa (opt_string m5) (opt_string m8) v))%res
  else Err ErrInvalidSemVer.

(** [Version.String]: the normalised rendering; the leading [v] and omitted
    segments of the original are not reproduced. *)
Definition Version_String (v : Version) : string :=
  fmt_d (major v) +++ "." +++ fmt_d (minor v) +++ "." +++ fmt_d (patch v)
  +++ (if is_empty (pre v) then EmptyString else "-" +++ pre v)
  +++ (if is_empty (metadata v) then EmptyString else "+" +++ metadata v).

Definition compareSegment (v o : Z) : comparison := Z.compare v o.

(** A pre-release identifier is numeric when it is a non-empty string of
    digits, alphanumeric otherwise. *)
Inductive ident : Type :=
| Numeric (n : Z)
| Alnum (s : string).

Definition classify (s : string) : ident :=
  if negb (is_empty s) && all_chars is_digit s then Numeric (atoi s 0)
  else Alnum s.

Definition compareIdent (a b : ident) : comparison :=
  match a, b with
  | Numeric x, Numeric y => Z.compare x y
  | Numeric _, Alnum _ => Lt
  | Alnum _, Numeric _ => Gt
  | Alnum x, Alnum y => String.compare x y
  end.

Definition comparePrePart (s o : string) : comparison :=
  compareIdent (classify s) (classify o).

(** Field by field; when all shared fields are equal the longer list wins. *)
Fixpoint compareParts (s o : list string) : comparison :=
  match s, o with
  | [], [] => Eq
  | [], _ :: _ => Lt
  | _ :: _, [] => Gt
  | a :: s', b :: o' =>
      match comparePrePart a b with
      | Eq => compareParts s' o'
      | d => d
      end
  end.

Definition comparePrerelease (v o : string) : comparison :=
  compareParts (Split v ".") (Split o ".").

Definition comparePre (ps po : string) : comparison :=
  if is_empty ps then (if is_empty po then Eq else Gt)
  else if is_empty po then Lt
  else comparePrerelease ps po.

(** [Version.Compare]. *)
Definition Compare (v o : Version) : comparison :=
  match compareSegment (major v) (major o) with
  | Eq =>
      match compareSegment (minor v) (minor o) with
      | Eq =>
          match compareSegment (patch v) (patch o) with
          | Eq => comparePre (pre v) (pre o)
          | d => d
          end
      | d => d
      end
  | d => d
  end.

(** [Version.LessThan]: [v.Compare(o) < 0]. *)
Definition LessThan (v o : Version) : bool :=
  match Compare v o with
  | Lt => true
  | _ => false
  end.

(** A compiled constraint is represented by its [Check] method. *)
Definition Constraints : Type := Version -> bool.

Definition Check (c : Constraints) (v : Version) : bool := c v.

(** Ascending order of a [semver.Collection]: no element is [LessThan] an
    earlier one. *)
Definition ascending (a b : Version) : Prop := LessThan b a = false.

End semver.

(** ** Decoded documents

    What [yaml.Unmarshal] stores into an [interface{}]: scalars, sequences,
    and maps keyed by strings ([map[string]interface{}]) or by arbitrary
    values ([map[interface{}]interface{}]).  A float is kept as its bits. *)

#[warnings="-register-all"]
Inductive value : Type :=
| Nil
| Bool (b : bool)
| Int (n : Z)
| Float64 (bits : Z)
| Str (s : string)
| Seq (l : list value)
| MapStr (m : list (string * value))
| MapAny (m : list (value * value)).

(** [%T] of a decoded value. *)
Definition fmt_T (v : value) : string :=
  match v with
  | Nil => "<nil>"
  | Bool _ => "bool"
  | Int _ => "int"
  | Float64 _ => "float64"
  | Str _ => "string"
  | Seq _ => "[]interface {}"
  | MapStr _ => "map[string]interface {}"
  | MapAny _ => "map[interface {}]interface {}"
  end.

(** ** Configuration ([types.go]) *)

Module GetterJSONPath.
Record t : Type := mk {
  Source : string;
  Versions : string;
  Description : string
}.
End GetterJSONPath.

Module GitTags.
Record t : Type := mk { Source : string }.
End GitTags.

Module GitHubReleases.
Record t : Type := mk {
  Host : string;
  Source : string
}.
End GitHubReleases.

Module DockerImageTags.
Record t : Type := mk { Source : string }.
End DockerImageTags.

Record VersionsFrom : Type := mkVersionsFrom {
  JSONPath : GetterJSONPath.t;
  GitTags : GitTags.t;
  GitHubReleases : GitHubReleases.t;
  DockerImageTags : DockerImageTags.t
}.

Record Spec : Type := mkSpec { VersionsFrom_ : VersionsFrom }.

(** ** Releases, the tracker and its collaborators *)

Record Release : Type := mkRelease {
  Semver : semver.Version;
  Version : string;
  Description : string
}.

(** What one run of a command leaves behind. *)
Record CommandRun : Type := mkCommandRun {
  run_stdout : string;
  run_stderr : string;
  run_status : Z
}.

Record Tracker : Type := mkTracker {
  Spec_ : Spec;
  (** [fs.ReadFile] *)
  fs_ReadFile : string -> result string;
  (** the process the command site starts for a program and its arguments *)
  cmdSite_run : string -> list string -> CommandRun;
  (** [httpGetter.DoRequest] *)
  httpGetter_DoRequest : string -> result string;
  (** [dep.Resolve] *)
  dep_Resolve : string -> result string
}.

Record Lib : Type := mkLib {
  (** [yaml.Unmarshal] into an [interface{}] *)
  yaml_Unmarshal : string -> result value;
  (** [maputil.RecursivelyCastKeysToStrings] *)
  RecursivelyCastKeysToStrings : value -> result value;
  (** [jsonpath.Get] *)
  jsonpath_Get : string -> value -> result value;
  (** [semver.NewConstraint] *)
  NewConstraint : string -> result semver.Constraints;
  (** [sort.Sort] on a [semver.Collection] *)
  sort_Sort : list semver.Version -> list semver.Version;
  (** [%q] of a string ([strconv.Quote]) *)
  fmt_q : string -> string;
  (** [%v] of a decoded value *)
  fmt_v : value -> string
}.

(** Modelled from the spec: [cmdsite.CaptureStrings] (package [cmdsite] is not
    among the sources) runs the command, returns its standard output and
    standard error separately, and returns an error exactly when the exit
    status is not zero. *)
Definition CaptureStrings (p : Tracker) (cmd : string) (args : list string)
  : string * string * option error :=
  let r := cmdSite_run p cmd args in
  (run_stdout r, run_stderr r,
   if (run_status r =? 0)%Z then None
   else Some ("exit status " +++ fmt_d (run_status r))).

(** The providers [GetProvider] can build; each constructor carries the
    fields of the Go struct (the [runtime] field is the tracker itself). *)
Inductive ReleaseProvider : Type :=
| execProvider (cmd : string)
| getterJsonPathProvider (spec : GetterJSONPath.t)
| httpJsonPathProvider (url jsonpath : string).

Definition newExecProvider (cmd : string) : ReleaseProvider :=
  execProvider cmd.

Definition newGetterProvider (spec : GetterJSONPath.t) : ReleaseProvider :=
  getterJsonPathProvider spec.

Definition newDockerHubImageTagsProvider (spec : DockerImageTags.t)
  : ReleaseProvider :=
  let url := "https://registry.hub.docker.com/v2/repositories/"
             +++ DockerImageTags.Source spec +++ "/tags/" in
  httpJsonPathProvider url "$.results[*].name".

Definition newGitHubReleasesProvider (spec : GitHubReleases.t)
  : ReleaseProvider :=
  let host := GitHubReleases.Host spec in
  let host := if semver.is_empty host then "api.github.com" else host in
  let url := "https://" +++ host +++ "/repos/"
             +++ GitHubReleases.Source spec +++ "/releases" in
  httpJsonPathProvider url "$[*].tag_name".

Definition semverToRelease (ver : semver.Version) : Release :=
  mkRelease ver (semver.Version_String ver) EmptyString.

Section Tracker.

Variable L : Lib.

(** The loop of [versionStringsToSemvers], from index [i]. *)
Fixpoint parseFrom (i : nat) (vs : list string) : result (list semver.Version) :=
  match vs with
  | [] => Ok []
  | s :: rest =>
      match semver.NewVersion s with
      | Ok v => (vss <- parseFrom (S i) rest ;; Ok (v :: vss))%res
      | Err err =>
          Err ("parsing version: index " +++ fmt_d (Z.of_nat i) +++ ": "
               +++ fmt_q L s +++ ": " +++ err)
      | Panic m => Panic m
      end
  end.

Definition versionStringsToSemvers (vs : list string)
  : result (list semver.Version) :=
  (vss <- parseFrom 0 vs ;;
   Ok (sort_Sort L vss))%res.

Definition versionsToReleases (vs : list string) : result (list Release) :=
  (vss <- versionStringsToSemvers vs ;;
   Ok (fold_left (fun rs ver => rs ++ [semverToRelease ver]) vss []))%res.

(** [for k, _ := range typed { vs = append(vs, k.(string)) }] on a map keyed
    by arbitrary values: a key that is not a string panics. *)
Fixpoint appendAnyKeys (typed : list (value * value)) (vs : list string)
  : result (list string) :=
  match typed with
  | [] => Ok vs
  | (Str k, _) :: rest => appendAnyKeys rest (vs ++ [k])
  | (k, _) :: _ =>
      Panic ("interface conversion: interface {} is " +++ fmt_T k
             +++ ", not string")
  end.

(** The second loop of [extractVersionStrings], with [vs] collected so far. *)
Fixpoint collect (raw : list value) (vs : list string) : result (list string) :=
  match raw with
  | [] => Ok vs
  | r :: rest =>
      match r with
      | MapAny typed => (vs' <- appendAnyKeys typed vs ;; collect rest vs')%res
      | MapStr typed =>
          collect rest (fold_left (fun acc kv => acc ++ [fst kv]) typed vs)
      | Str typed => collect rest (vs ++ [typed])
      | typed =>
          Err ("jsonpath: unexpected type of result: " +++ fmt_T typed
               +++ "=" +++ fmt_v L typed)
      end
  end.

Definition extractVersionStrings (tmp : value) (jpath : string)
  : result (list string) :=
  (v <- RecursivelyCastKeysToStrings L tmp ;;
   got <- jsonpath_Get L jpath v ;;
   raw <- match got with
          | Seq typed => Ok typed
          | MapStr typed => Ok ([] ++ [MapStr typed])
          | typed =>
              Err ("unexpected type of result from jsonpath: " +++ dq +++ jpath
                   +++ dq +++ ": " +++ fmt_v L typed)
          end ;;
   if (List.length raw =? 0)%nat then
     Err ("jsonpath: " +++ dq +++ jpath +++ dq +++ ": returned nothing: "
          +++ fmt_v L v)
   else collect raw [])%res.

Definition extractVersions (tmp : value) (jpath : string)
  : result (list Release) :=
  (vs <- extractVersionStrings tmp jpath ;;
   versionsToReleases vs)%res.

Variable p : Tracker.

Definition exec (cmd : string) : M (list string) :=
  let '(stdout, stderr, err) := CaptureStrings p "sh" ["-c"; cmd] in
  (_ <- (if (0 <? String.length stderr)%nat then logInfo stderr else ret tt) ;;
   match err with
   | Some e => lift (Err e)
   | None =>
       let entries := Split stdout nl in
       ret (fold_left
              (fun vs e => if negb (semver.is_empty e) then vs ++ [e] else vs)
              entries [])
   end)%m.

Definition execAll (cmd : string) : M (list Release) :=
  (vs <- exec cmd ;;
   lift (versionsToReleases vs))%m.

Definition getterJsonPath (spec : GetterJSONPath.t) : result (list Release) :=
  (localCopy <- dep_Resolve p (GetterJSONPath.Source spec) ;;
   bs <- fs_ReadFile p localCopy ;;
   tmp <- yaml_Unmarshal L bs ;;
   extractVersions tmp (GetterJSONPath.Versions spec))%res.

Definition httpJsonPath (url jpath : string) : result (list Release) :=
  (res <- httpGetter_DoRequest p url ;;
   tmp <- yaml_Unmarshal L res ;;
   extractVersions tmp jpath)%res.

(** The method [All] of the three providers. *)
Definition All (pp : ReleaseProvider) : M (list Release) :=
  match pp with
  | execProvider cmd => execAll cmd
  | getterJsonPathProvider spec => lift (getterJsonPath spec)
  | httpJsonPathProvider url jsonpath => lift (httpJsonPath url jsonpath)
  end.

Definition GetProvider : result ReleaseProvider :=
  let versionsFrom := VersionsFrom_ (Spec_ p) in
  if negb (semver.is_empty (GetterJSONPath.Source (JSONPath versionsFrom))) then
    Ok (newGetterProvider (JSONPath versionsFrom))
  else if negb (semver.is_empty
                  (DockerImageTags.Source (DockerImageTags versionsFrom))) then
    Ok (newDockerHubImageTagsProvider (DockerImageTags versionsFrom))
  else if negb (semver.is_empty (GitTags.Source (GitTags versionsFrom))) then
    let cmd := "git ls-remote --tags git://"
               +++ GitTags.Source (GitTags versionsFrom)
               +++ ".git | grep -v { | awk '{ print $2 }' | cut -d'/' -f 3" in
    Ok (newExecProvider cmd)
  else if negb (semver.is_empty
                  (GitHubReleases.Source (GitHubReleases versionsFrom))) then
    Ok (newGitHubReleasesProvider (GitHubReleases versionsFrom))
  else Err "no versions provider specified".

Definition GetReleases : M (list Release) :=
  (pp <- lift GetProvider ;;
   All pp)%m.

(** The selection loop of [Latest]: the running maximum [latestVer] and the
    release [latest] it came from ([None] is the nil pointer). *)
Fixpoint latestLoop (cons : semver.Constraints) (all : list Release)
  (latestVer : semver.Version) (latest : option Release)
  : semver.Version * option Release :=
  match all with
  | [] => (latestVer, latest)
  | r :: rest =>
      if negb (semver.Check cons (Semver r)) then
        latestLoop cons rest latestVer latest
      else if semver.LessThan latestVer (Semver r) then
        latestLoop cons rest (Semver r) (Some r)
      else latestLoop cons rest latestVer latest
  end.

Definition effective_constraint (constraint : string) : string :=
  if semver.is_empty constraint then "> 0.0.0" else constraint.

Definition noMatchError (constraint : string) (all : list Release) : error :=
  let vers :=
    fold_left (fun vers r => vers ++ [semver.Version_String (Semver r)]) all []
  in
  "no semver matching " +++ fmt_q L constraint +++ " found in "
  +++ fmt_strings vers.

Definition Latest (constraint : string) : M Release :=
  let constraint := effective_constraint constraint in
  (cons <- lift (NewConstraint L constraint) ;;
   all <- GetReleases ;;
   match snd (latestLoop cons all semver.zero None) with
   | None => lift (Err (noMatchError constraint all))
   | Some latest => ret latest
   end)%m.

End Tracker.

(** ** A reference instantiation of the libraries

    Executable stand-ins for the fields of [Lib], used to run the tracker on
    concrete inputs.  Each one covers the fragment its comment names. *)

Module Ref.

(** [sort.Sort] leaves the order of equal elements unspecified; this stand-in
    is insertion sort. *)
Fixpoint insert (v : semver.Version) (l : list semver.Version)
  : list semver.Version :=
  match l with
  | [] => [v]
  | x :: r => if semver.LessThan v x then v :: l else x :: insert v r
  end.

Fixpoint sortCollection (l : list semver.Version) : list semver.Version :=
  match l with
  | [] => []
  | x :: r => insert x (sortCollection r)
  end.

(** Constraints: the comparator fragment [OP VERSION (, OP VERSION)*] with
    [OP] among [=], [!=], [>], [<], [>=], [=>], [<=], [=<] or absent.  As
    section 8 of the specification requires, an ordering comparator whose
    version has no pre-release rejects every pre-release version. *)
Inductive op : Type := OpEq | OpNe | OpGt | OpLt | OpGe | OpLe.

Definition is_space (c : ascii) : bool :=
  Ascii.eqb c " " || semver.in_range 9 13 c.

Fixpoint ltrim (s : string) : string :=
  match s with
  | String c r => if is_space c then ltrim r else s
  | EmptyString => EmptyString
  end.

Fixpoint rtrim (s : string) : string :=
  match s with
  | EmptyString => EmptyString
  | String c r =>
      let r' := rtrim r in
      if semver.is_empty r' && is_space c then EmptyString else String c r'
  end.

Definition parseOp (s : string) : op * string :=
  match s with
  | String ">" (String "=" r) => (OpGe, r)
  | String "=" (String ">" r) => (OpGe, r)
  | String "<" (String "=" r) => (OpLe, r)
  | String "=" (String "<" r) => (OpLe, r)
  | String "!" (String "=" r) => (OpNe, r)
  | String ">" r => (OpGt, r)
  | String "<" r => (OpLt, r)
  | String "=" r => (OpEq, r)
  | _ => (OpEq, s)
  end.

Definition excludesPre (con v : semver.Version) : bool :=
  negb (semver.is_empty (semver.pre v)) && semver.is_empty (semver.pre con).

Definition checkOne (c : op * semver.Version) (v : semver.Version) : bool :=
  let (o, con) := c in
  match o, semver.Compare v con with
  | OpEq, Eq => true
  | OpNe, (Lt | Gt) => true
  | OpGt, Gt => negb (excludesPre con v)
  | OpLt, Lt => negb (excludesPre con v)
  | OpGe, (Gt | Eq) => negb (excludesPre con v)
  | OpLe, (Lt | Eq) => negb (excludesPre con v)
  | _, _ => false
  end.

Definition parseComparator (s : string) : result (op * semver.Version) :=
  let (o, r) := parseOp (ltrim s) in
  match semver.NewVersion (rtrim (ltrim r)) with
  | Ok con => Ok (o, con)
  | Err _ => Err ("improper constraint: " +++ s)
  | Panic m => Panic m
  end.

Fixpoint parseAll (cs : list string) : result (list (op * semver.Version)) :=
  match cs with
  | [] => Ok []
  | s :: r =>
      (c <- parseComparator s ;;
       r' <- parseAll r ;;
       Ok (c :: r'))%res
  end.

Definition compileConstraint (c : string) : result semver.Constraints :=
  (cs <- parseAll (Split c ",") ;;
   Ok (fun v => forallb (fun one => checkOne one v) cs))%res.

(** [%q] on printable ASCII: the string between double quotes, with a
    backslash before each double quote and backslash. *)
Fixpoint escape (s : string) : string :=
  match s with
  | EmptyString => EmptyString
  | String c r =>
      if Ascii.eqb c "034" || Ascii.eqb c "092"
      then String "092" (String c (escape r))
      else String c (escape r)
  end.

Definition quote (s : string) : string := dq +++ escape s +++ dq.

(** [%v] of a decoded value, in the style of [fmt]. *)
Fixpoint render (v : value) : string :=
  match v with
  | Nil => "<nil>"
  | Bool b => if b then "true" else "false"
  | Int n => fmt_d n
  | Float64 bits => "0x" +++ fmt_d bits
  | Str s => s
  | Seq l => "[" +++ Join (map render l) " " +++ "]"
  | MapStr m =>
      "map["
      +++ Join (map (fun kv => fst kv +++ ":" +++ render (snd kv)) m) " "
      +++ "]"
  | MapAny m =>
      "map["
      +++ Join (map (fun kv => render (fst kv) +++ ":" +++ render (snd kv)) m)
               " "
      +++ "]"
  end.

(** Modelled from the spec: [maputil.RecursivelyCastKeysToStrings] (package
    [maputil] is not among the sources) rebuilds the document so that every
    map is keyed by strings, and fails on a key that is not a string. *)
Fixpoint castKeys (v : value) : result value :=
  match v with
  | Seq l =>
      (l' <- (fix go (l : list value) : result (list value) :=
                match l with
                | [] => Ok []
                | x :: r => (x' <- castKeys x ;; r' <- go r ;; Ok (x' :: r'))
                end) l ;;
       Ok (Seq l'))%res
  | MapStr m =>
      (m' <- (fix go (m : list (string * value))
                : result (list (string * value)) :=
                match m with
                | [] => Ok []
                | (k, x) :: r =>
                    (x' <- castKeys x ;; r' <- go r ;; Ok ((k, x') :: r'))
                end) m ;;
       Ok (MapStr m'))%res
  | MapAny m =>
      (m' <- (fix go (m : list (value * value))
                : result (list (string * value)) :=
                match m with
                | [] => Ok []
                | (Str k, x) :: r =>
                    (x' <- castKeys x ;; r' <- go r ;; Ok ((k, x') :: r'))
                | (k, _) :: _ =>
                    Err ("unexpected type of key in map: expected string, got "
                         +++ fmt_T k)
                end) m ;;
       Ok (MapStr m'))%res
  | _ => Ok v
  end.

(** JSON paths: the fragment [$] followed by field selectors [.name] and
    wildcards [[*]]. *)
Inductive step : Type :=
| Field (name : string)
| Wildcard.

Definition flush (cur : option string) (rest : option (list step))
  : option (list step) :=
  match cur, rest with
  | _, None => None
  | None, Some steps => Some steps
  | Some name, Some steps =>
      if semver.is_empty name then None else Some (Field name :: steps)
  end.

Fixpoint parseSteps (s : string) (cur : option string) : option (list step) :=
  match s with
  | EmptyString => flush cur (Some [])
  | String "." r => flush cur (parseSteps r (Some EmptyString))
  | String "[" (String "*" (String "]" r)) =>
      flush cur (option_map (cons Wildcard) (parseSteps r None))
  | String c r =>
      match cur with
      | Some name => parseSteps r (Some (name +++ String c EmptyString))
      | None => None
      end
  end.

Fixpoint lookup (name : string) (m : list (string * value)) : option value :=
  match m with
  | [] => None
  | (k, x) :: r => if String.eqb k name then Some x else lookup name r
  end.

Definition field (name : string) (v : value) : option value :=
  match v with
  | MapStr m => lookup name m
  | _ => None
  end.

Definition children (v : value) : list value :=
  match v with
  | Seq l => l
  | MapStr m => map snd m
  | _ => []
  end.

Fixpoint evalMany (steps : list step) (nodes : list value) : list value :=
  match steps with
  | [] => nodes
  | Field name :: r =>
      evalMany r
        (flat_map (fun v => match field name v with
                            | Some x => [x]
                            | None => []
                            end) nodes)
  | Wildcard :: r => evalMany r (flat_map children nodes)
  end.

Fixpoint evalOne (steps : list step) (v : value) : result value :=
  match steps with
  | [] => Ok v
  | Field name :: r =>
      match field name v with
      | Some x => evalOne r x
      | None => Err ("unknown key " +++ name)
      end
  | Wildcard :: r => Ok (Seq (evalMany r (children v)))
  end.

Definition jsonpathGet (path : string) (v : value) : result value :=
  match path with
  | String "$" r =>
      match parseSteps r None with
      | Some steps => evalOne steps v
      | None => Err ("parsing error: " +++ path)
      end
  | _ => Err ("parsing error: " +++ path)
  end.

(** Two documents and their decoded form: the Docker Hub answer of section 8
    of the specification, and a list of versions under the key [versions]. *)
Definition dockerBody : string :=
  "{results: [{name: v1.0.0}, {name: v1.1.0}]}".

Definition dockerDoc : value :=
  MapStr [("results",
           Seq [MapStr [("name", Str "v1.0.0")];
                MapStr [("name", Str "v1.1.0")]])].

Definition versionsBody : string := "versions: [v1.2.3, 1.0.0]".

Definition versionsDoc : value :=
  MapStr [("versions", Seq [Str "v1.2.3"; Str "1.0.0"])].

Definition emptyBody : string := "versions: []".

Definition emptyDoc : value := MapStr [("versions", Seq [])].

Definition yamlUnmarshal (bs : string) : result value :=
  if String.eqb bs dockerBody then Ok dockerDoc
  else if String.eqb bs versionsBody then Ok versionsDoc
  else if String.eqb bs emptyBody then Ok emptyDoc
  else Err "yaml: document not supported".

Definition lib : Lib :=
  mkLib yamlUnmarshal castKeys jsonpathGet compileConstraint sortCollection
        quote render.

(** Trackers on fixed collaborators. *)
Definition noFile (path : string) : result string :=
  Err ("open " +++ path +++ ": file does not exist").

Definition noRun (cmd : string) (args : list string) : CommandRun :=
  mkCommandRun EmptyString "sh: command not found" 127.

Definition noHttp (url : string) : result string :=
  Err ("Get " +++ url +++ ": no such host").

Definition noSource : VersionsFrom :=
  mkVersionsFrom
    (GetterJSONPath.mk EmptyString EmptyString EmptyString)
    (GitTags.mk EmptyString)
    (GitHubReleases.mk EmptyString EmptyString)
    (DockerImageTags.mk EmptyString).

(** Git tags of [helm/helm]: the command prints [out], warns [warn] on
    standard error and exits with [status]. *)
Definition gitTracker (out warn : string) (status : Z) : Tracker :=
  mkTracker
    (mkSpec (mkVersionsFrom (JSONPath noSource) (GitTags.mk "helm/helm")
                            (GitHubReleases noSource)
                            (DockerImageTags noSource)))
    noFile
    (fun _ _ => mkCommandRun out warn status)
    noHttp noFile.

(** Docker Hub tags of [library/golang], answered with [dockerBody]. *)
Definition dockerTracker : Tracker :=
  mkTracker
    (mkSpec (mkVersionsFrom (JSONPath noSource) (GitTags noSource)
                            (GitHubReleases noSource)
                            (DockerImageTags.mk "library/golang")))
    noFile noRun
    (fun _ => Ok dockerBody)
    noFile.

(** A document at [body], queried with [$.versions[*]] and described as
    [helm releases]. *)
Definition jsonPathTracker (body : string) : Tracker :=
  mkTracker
    (mkSpec (mkVersionsFrom
               (GetterJSONPath.mk "git::https://example.com/versions.yaml"
                                  "$.versions[*]" "helm releases")
               (GitTags noSource) (GitHubReleases noSource)
               (DockerImageTags noSource)))
    (fun _ => Ok body)
    noRun noHttp
    (fun _ => Ok "/cache/versions.yaml").

(** All four sources filled in at once. *)
Definition crowdedTracker : Tracker :=
  mkTracker
    (mkSpec (mkVersionsFrom
               (GetterJSONPath.mk "versions.yaml" "$.versions[*]" EmptyString)
               (GitTags.mk "helm/helm")
               (GitHubReleases.mk "github.example.com" "helm/helm")
               (DockerImageTags.mk "library/golang")))
    noFile noRun noHttp noFile.

(** What [compileConstraint] makes of the single comparator [OP X.Y.Z]. *)
Definition comparator (o : op) (x y z : Z) : semver.Constraints :=
  fun v =>
    forallb (fun one => checkOne one v)
      [(o, semver.mkVersion x y z EmptyString EmptyString
             (fmt_d x +++ "." +++ fmt_d y +++ "." +++ fmt_d z))].

End Ref.

(** ** Definitions used to state the properties *)

(** The key on which [Compare] is the field-by-field order. *)
Definition version_key (v : semver.Version) : Z * (Z * (Z * string)) :=
  (semver.major v, (semver.minor v, (semver.patch v, semver.pre v))).

(** Lines of a command's output, each ended by a line feed. *)
Definition lines (l : list string) : string :=
  fold_right (fun s acc => s +++ String nl acc) EmptyString l.

(** A node is a string or a map. *)
Definition is_string_or_map (r : value) : bool :=
  match r with
  | Str _ | MapStr _ | MapAny _ => true
  | _ => false
  end.

(** Every key of the map is a string. *)
Definition stringKeyed (m : list (value * value)) : bool :=
  forallb (fun kv => match fst kv with Str _ => true | _ => false end) m.

(** The keys of a map keyed by arbitrary values that are strings. *)
Definition anyKeys (m : list (value * value)) : list string :=
  flat_map (fun kv => match fst kv with Str k => [k] | _ => [] end) m.

(** The maps of a document whose keys were cast to strings are keyed by
    strings, whichever of the two map types holds them. *)
Definition keys_are_strings (r : value) : bool :=
  match r with
  | MapAny m => stringKeyed m
  | _ => true
  end.

(** What the specification lets one node emit: a string itself, a map its
    keys. *)
Definition emitted (r : value) : list string :=
  match r with
  | Str s => [s]
  | MapStr m => map fst m
  | MapAny m => anyKeys m
  | _ => []
  end.

(** [prefixb p s]: [s] starts with [p]; [substringb sub s]: [sub] occurs in
    [s] (the boolean form of [contains]). *)
Fixpoint prefixb (p s : string) : bool :=
  match p, s with
  | EmptyString, _ => true
  | String a p', String b s' => Ascii.eqb a b && prefixb p' s'
  | String _ _, EmptyString => false
  end.

Fixpoint substringb (sub s : string) : bool :=
  prefixb sub s
  || match s with
     | EmptyString => false
     | String _ r => substringb sub r
     end.

(** The command and the URLs [GetProvider] builds from a source. *)
Definition gitCommand (source : string) : string :=
  "git ls-remote --tags git://" +++ source
  +++ ".git | grep -v { | awk '{ print $2 }' | cut -d'/' -f 3".

Definition dockerURL (source : string) : string :=
  "https://registry.hub.docker.com/v2/repositories/" +++ source +++ "/tags/".

Definition githubURL (host source : string) : string :=
  "https://" +++ (if semver.is_empty host then "api.github.com" else host)
  +++ "/repos/" +++ source +++ "/releases".

(** [occurs c s]: the character [c] occurs in [s]. *)
Fixpoint occurs (c : ascii) (s : string) : bool :=
  match s with
  | EmptyString => false
  | String x r => Ascii.eqb x c || occurs c r
  end.

(** ** The constructor [New]

    [New] fills in a [Tracker] field by field.  Here the struct is the record
    [Fields], with every field of the Go struct; a nil interface or pointer
    is [None].  The types of the collaborators are parameters, and so are the
    functions of the operating system and of the other packages that [New]
    calls, gathered in [Sys].  An option is the effect of its [SetOption] on
    the struct, or the error it returns.  What [New] logs is returned with
    its result: the message and the key/value pairs given to [Info]. *)

Module Constructor.

Section Fields.

Context {vfsFS logrLogger vhttpgetGetter depResolver cmdsiteSite : Type}.

Record Fields : Type := mkFields {
  Spec_ : Spec;
  fs : option vfsFS;
  cmdSite : option cmdsiteSite;
  Logger : option logrLogger;
  AbsWorkDir : string;
  cacheDir : string;
  GoGetterAbsWorkDir : string;
  goGetterCacheDir : string;
  httpGetter : option vhttpgetGetter;
  dep : option depResolver
}.

Record Sys : Type := mkSys {
  os_Getwd : result string;
  filepath_Abs : string -> result string;
  filepath_IsAbs : string -> bool;
  filepath_Join : string -> string -> string;
  klogr_New : logrLogger;
  vfs_HostOSFS : vfsFS;
  vhttpget_New : vhttpgetGetter;
  cmdsite_New : cmdsiteSite;
  (** [depresolver.New(Home(h), GoGetterHome(g), Logger(l), FS(f))] *)
  depresolver_New :
    string -> string -> option logrLogger -> option vfsFS -> result depResolver
}.

Definition Option : Type := Fields -> result Fields.

Definition LogEntry : Type := (string * list (string * string))%type.

Definition zeroSpec : Spec :=
  mkSpec (mkVersionsFrom
            (GetterJSONPath.mk EmptyString EmptyString EmptyString)
            (GitTags.mk EmptyString)
            (GitHubReleases.mk EmptyString EmptyString)
            (DockerImageTags.mk EmptyString)).

Definition with_fs (t : Fields) (x : option vfsFS) : Fields :=
  mkFields (Spec_ t) x (cmdSite t) (Logger t) (AbsWorkDir t) (cacheDir t)
           (GoGetterAbsWorkDir t) (goGetterCacheDir t) (httpGetter t) (dep t).

Definition with_Logger (t : Fields) (x : option logrLogger) : Fields :=
  mkFields (Spec_ t) (fs t) (cmdSite t) x (AbsWorkDir t) (cacheDir t)
           (GoGetterAbsWorkDir t) (goGetterCacheDir t) (httpGetter t) (dep t).

Definition with_httpGetter (t : Fields) (x : option vhttpgetGetter) : Fields :=
  mkFields (Spec_ t) (fs t) (cmdSite t) (Logger t) (AbsWorkDir t) (cacheDir t)
           (GoGetterAbsWorkDir t) (goGetterCacheDir t) x (dep t).

Definition with_AbsWorkDir (t : Fields) (x : string) : Fields :=
  mkFields (Spec_ t) (fs t) (cmdSite t) (Logger t) x (cacheDir t)
           (GoGetterAbsWorkDir t) (goGetterCacheDir t) (httpGetter t) (dep t).

Definition with_cacheDir (t : Fields) (x : string) : Fields :=
  mkFields (Spec_ t) (fs t) (cmdSite t) (Logger t) (AbsWorkDir t) x
           (GoGetterAbsWorkDir t) (goGetterCacheDir t) (httpGetter t) (dep t).

Definition with_GoGetterAbsWorkDir (t : Fields) (x : string) : Fields :=
  mkFields (Spec_ t) (fs t) (cmdSite t) (Logger t) (AbsWorkDir t) (cacheDir t)
           x (goGetterCacheDir t) (httpGetter t) (dep t).

Definition with_goGetterCacheDir (t : Fields) (x : string) : Fields :=
  mkFields (Spec_ t) (fs t) (cmdSite t) (Logger t) (AbsWorkDir t) (cacheDir t)
           (GoGetterAbsWorkDir t) x (httpGetter t) (dep t).

Definition with_dep (t : Fields) (x : option depResolver) : Fields :=
  mkFields (Spec_ t) (fs t) (cmdSite t) (Logger t) (AbsWorkDir t) (cacheDir t)
           (GoGetterAbsWorkDir t) (goGetterCacheDir t) (httpGetter t) x.

Definition with_Spec (t : Fields) (x : Spec) : Fields :=
  mkFields x (fs t) (cmdSite t) (Logger t) (AbsWorkDir t) (cacheDir t)
           (GoGetterAbsWorkDir t) (goGetterCacheDir t) (httpGetter t) (dep t).

Definition is_nil {A : Type} (x : option A) : bool :=
  match x with
  | None => true
  | Some _ => false
  end.

Variable S : Sys.

(** [&Tracker{cmdSite: cmdsite.New()}] *)
Definition initial : Fields :=
  mkFields zeroSpec None (Some (cmdsite_New S)) None EmptyString EmptyString
           EmptyString EmptyString None None.

(** [for _, o := range opts]: the first error ends the loop. *)
Fixpoint applyOptions (opts : list Option) (provider : Fields) : result Fields :=
  match opts with
  | [] => Ok provider
  | o :: rest => (provider' <- o provider ;; applyOptions rest provider')%res
  end.

(** The three collaborators left nil by the options get their defaults. *)
Definition defaultCollaborators (provider : Fields) : Fields :=
  let provider :=
    if is_nil (Logger provider)
    then with_Logger provider (Some (klogr_New S)) else provider in
  let provider :=
    if is_nil (fs provider)
    then with_fs provider (Some (vfs_HostOSFS S)) else provider in
  if is_nil (httpGetter provider)
  then with_httpGetter provider (Some (vhttpget_New S)) else provider.

(** [AbsWorkDir], when empty, becomes the absolute current directory. *)
Definition defaultWorkDir (provider : Fields) : result Fields :=
  if semver.is_empty (AbsWorkDir provider) then
    (path <- os_Getwd S ;;
     abs <- filepath_Abs S path ;;
     Ok (with_AbsWorkDir provider abs))%res
  else Ok provider.

(** The other directories: defaults first, then relative cache directories
    are joined to their working directory. *)
Definition defaultDirs (provider : Fields) : Fields :=
  let provider :=
    if semver.is_empty (GoGetterAbsWorkDir provider)
    then with_GoGetterAbsWorkDir provider (AbsWorkDir provider)
    else provider in
  let provider :=
    if semver.is_empty (cacheDir provider)
    then with_cacheDir provider ".variant/mod/cache" else provider in
  let provider :=
    if semver.is_empty (goGetterCacheDir provider)
    then with_goGetterCacheDir provider (cacheDir provider) else provider in
  let abs := filepath_IsAbs S (cacheDir provider) in
  let provider :=
    if negb abs
    then with_cacheDir provider
           (filepath_Join S (AbsWorkDir provider) (cacheDir provider))
    else provider in
  let abs := filepath_IsAbs S (goGetterCacheDir provider) in
  if negb abs
  then with_goGetterCacheDir provider
         (filepath_Join S (GoGetterAbsWorkDir provider)
                        (goGetterCacheDir provider))
  else provider.

Definition initEntry (provider : Fields) : LogEntry :=
  ("releasechannel.init",
   [("workdir", AbsWorkDir provider);
    ("cachedir", cacheDir provider);
    ("gogetterworkdir", GoGetterAbsWorkDir provider);
    ("gogettercachedir", goGetterCacheDir provider)]).

Definition New (conf : Spec) (opts : list Option)
  : list LogEntry * result Fields :=
  match applyOptions opts initial with
  | Ok provider =>
      match defaultWorkDir (defaultCollaborators provider) with
      | Ok provider =>
          let provider := defaultDirs provider in
          match Logger provider with
          | None => ([], Panic "invalid memory address or nil pointer dereference")
          | Some _ =>
              ([initEntry provider],
               (d <- depresolver_New S (cacheDir provider)
                                     (goGetterCacheDir provider)
                                     (Logger provider) (fs provider) ;;
                Ok (with_Spec (with_dep provider (Some d)) conf))%res)
          end
      | Err e => ([], Err e)
      | Panic m => ([], Panic m)
      end
  | Err e => ([], Err e)
  | Panic m => ([], Panic m)
  end.

End Fields.

Arguments Fields : clear implicits.
Arguments Sys : clear implicits.
Arguments Option : clear implicits.

End Constructor.

(** A system for running [New]: collaborators are named by strings, the
    current directory is [/work], a path is absolute when it starts with a
    slash, and joining puts a slash between the two parts. *)
Module RefSys.

Definition isAbs (path : string) : bool :=
  match path with
  | String "/" _ => true
  | _ => false
  end.

Definition join (a b : string) : string := a +++ "/" +++ b.

Definition abs (path : string) : result string :=
  Ok (if isAbs path then path else join "/work" path).

Definition sys : Constructor.Sys string string string string string :=
  Constructor.mkSys
    (Ok "/work") abs isAbs join
    "klogr" "HostOSFS" "vhttpget" "cmdsite"
    (fun home goGetterHome _ _ => Ok (home +++ ":" +++ goGetterHome)).

(** The same system with cache directories that cannot be created. *)
Definition readOnlySys : Constructor.Sys string string string string string :=
  Constructor.mkSys
    (Ok "/work") abs isAbs join
    "klogr" "HostOSFS" "vhttpget" "cmdsite"
    (fun home _ _ _ => Err ("mkdir " +++ home +++ ": read-only file system")).

Definition fields : Type := Constructor.Fields string string string string string.

(** Options in the style of the package's own: set the cache directory, set
    the working directory of go-getter, and one that fails. *)
Definition cacheDirOption (dir : string) : fields -> result fields :=
  fun t => Ok (Constructor.with_cacheDir t dir).

Definition goGetterWorkDirOption (dir : string) : fields -> result fields :=
  fun t => Ok (Constructor.with_GoGetterAbsWorkDir t dir).

Definition failingOption (msg : string) : fields -> result fields :=
  fun _ => Err msg.

End RefSys.

(** * Properties *)

(** ** Strings *)

Lemma append_assoc (a b c : string) : (a +++ b) +++ c = a +++ b +++ c.
Proof.
  induction a as [|x a IH]; simpl; [reflexivity|now rewrite IH].
Qed.

Lemma append_nil_r (a : string) : a +++ EmptyString = a.
Proof.
  induction a as [|x a IH]; simpl; [reflexivity|now rewrite IH].
Qed.

Lemma is_empty_true (s : string) : semver.is_empty s = true <-> s = EmptyString.
Proof.
  destruct s; simpl; split; congruence.
Qed.

Lemma is_empty_false (s : string) : semver.is_empty s = false <-> s <> EmptyString.
Proof.
  destruct s; simpl; split; congruence.
Qed.

Lemma contains_refl (s : string) : contains s s.
Proof.
  exists EmptyString, EmptyString. simpl. now rewrite append_nil_r.
Qed.

Lemma contains_prepend (p s sub : string) :
  contains s sub -> contains (p +++ s) sub.
Proof.
  intros (a & b & ->). exists (p +++ a), b. now rewrite append_assoc.
Qed.

Lemma contains_append (s q sub : string) :
  contains s sub -> contains (s +++ q) sub.
Proof.
  intros (a & b & ->). exists a, (b +++ q). now rewrite !append_assoc.
Qed.

Lemma Join_contains (sep x : string) (l : list string) :
  In x l -> contains (Join l sep) x.
Proof.
  induction l as [|y l IH]; intros Hin; [destruct Hin|].
  destruct Hin as [->|Hin].
  - destruct l; simpl; [apply contains_refl|].
    apply contains_append, contains_refl.
  - destruct l as [|z l]; [destruct Hin|].
    change (Join (y :: z :: l) sep) with (y +++ sep +++ Join (z :: l) sep).
    now apply contains_prepend, contains_prepend, IH.
Qed.

Lemma fold_append_map {A B : Type} (f : A -> B) (l : list A) (acc : list B) :
  fold_left (fun acc x => acc ++ [f x]) l acc = acc ++ map f l.
Proof.
  revert acc; induction l as [|x l IH]; intros acc; simpl.
  - now rewrite app_nil_r.
  - rewrite IH, <- app_assoc. reflexivity.
Qed.

(** ** Comparison functions: products and lists inherit a total preorder *)

Section Comparators.

Context {A : Type} (c : A -> A -> comparison) (Hc : total_preorder c).

Lemma tp_refl (x : A) : c x x = Eq.
Proof.
  pose proof (tp_antisym c Hc x x) as H. destruct (c x x); simpl in H; congruence.
Qed.

Lemma tp_lt_le (x y z : A) : c x y = Lt -> c y z <> Gt -> c x z = Lt.
Proof.
  intros Hxy Hyz.
  assert (Hxz : c x z <> Gt) by (apply (tp_trans c Hc x y z); congruence).
  destruct (c x z) eqn:E; try congruence.
  exfalso. apply (tp_trans c Hc y z x Hyz).
  - rewrite (tp_antisym c Hc x z), E. discriminate.
  - rewrite (tp_antisym c Hc x y), Hxy. reflexivity.
Qed.

Lemma tp_le_lt (x y z : A) : c x y <> Gt -> c y z = Lt -> c x z = Lt.
Proof.
  intros Hxy Hyz.
  assert (Hxz : c x z <> Gt) by (apply (tp_trans c Hc x y z); congruence).
  destruct (c x z) eqn:E; try congruence.
  exfalso.
  assert (Hzx : c z x <> Gt) by (rewrite (tp_antisym c Hc x z), E; discriminate).
  apply (tp_trans c Hc z x y Hzx Hxy).
  rewrite (tp_antisym c Hc y z), Hyz. reflexivity.
Qed.

Lemma tp_eq_eq (x y z : A) : c x y = Eq -> c y z = Eq -> c x z = Eq.
Proof.
  intros Hxy Hyz.
  assert (Hxz : c x z <> Gt) by (apply (tp_trans c Hc x y z); congruence).
  assert (Hzx : c z x <> Gt).
  { apply (tp_trans c Hc z y x).
    - rewrite (tp_antisym c Hc y z), Hyz. discriminate.
    - rewrite (tp_antisym c Hc x y), Hxy. discriminate. }
  rewrite (tp_antisym c Hc x z) in Hzx.
  destruct (c x z); simpl in Hzx; congruence.
Qed.

(** The image of a total preorder under any map. *)
Lemma tp_pullback {B : Type} (f : B -> A) :
  total_preorder (fun x y => c (f x) (f y)).
Proof.
  split; intros.
  - apply (tp_antisym c Hc).
  - eapply (tp_trans c Hc); eauto.
Qed.

Lemma tp_lex2 {B : Type} (d : B -> B -> comparison) :
  total_preorder d -> total_preorder (lex2 c d).
Proof.
  intros Hd. split; unfold lex2.
  - intros [x1 x2] [y1 y2]; simpl.
    rewrite (tp_antisym c Hc x1 y1).
    destruct (c x1 y1); simpl; auto. apply (tp_antisym d Hd).
  - intros [x1 x2] [y1 y2] [z1 z2]; simpl.
    destruct (c x1 y1) eqn:E1; destruct (c y1 z1) eqn:E2;
      intros H1 H2; try congruence.
    + rewrite (tp_eq_eq _ _ _ E1 E2). eapply (tp_trans d Hd); eauto.
    + rewrite (tp_le_lt x1 y1 z1); congruence.
    + rewrite (tp_lt_le x1 y1 z1); congruence.
    + rewrite (tp_lt_le x1 y1 z1); congruence.
Qed.

Lemma tp_lexl : total_preorder (lexl c).
Proof.
  split.
  - induction x as [|a x IH]; destruct y as [|b y]; simpl; auto.
    rewrite (tp_antisym c Hc a b). destruct (c a b); simpl; auto.
  - induction x as [|a x IH]; destruct y as [|b y]; destruct z as [|d z];
      simpl; try congruence.
    destruct (c a b) eqn:E1; destruct (c b d) eqn:E2;
      intros H1 H2; try congruence.
    + rewrite (tp_eq_eq _ _ _ E1 E2). eauto.
    + rewrite (tp_le_lt a b d); congruence.
    + rewrite (tp_lt_le a b d); congruence.
    + rewrite (tp_lt_le a b d); congruence.
Qed.

End Comparators.

Lemma tp_Z : total_preorder Z.compare.
Proof.
  split; intros.
  - apply Z.compare_antisym.
  - rewrite Z.compare_gt_iff in *. lia.
Qed.

Lemma tp_N : total_preorder N.compare.
Proof.
  split; intros.
  - apply N.compare_antisym.
  - rewrite N.compare_gt_iff in *. lia.
Qed.

Lemma tp_ascii : total_preorder Ascii.compare.
Proof.
  exact (tp_pullback N.compare tp_N N_of_ascii).
Qed.

Lemma string_compare_lexl (s t : string) :
  String.compare s t
  = lexl Ascii.compare (list_ascii_of_string s) (list_ascii_of_string t).
Proof.
  revert t; induction s as [|a s IH]; destruct t as [|b t]; simpl; auto.
  rewrite IH. reflexivity.
Qed.

Lemma tp_string : total_preorder String.compare.
Proof.
  pose proof (tp_pullback _ (tp_lexl _ tp_ascii) list_ascii_of_string) as H.
  split; intros.
  - rewrite !string_compare_lexl. apply (tp_antisym _ H).
  - rewrite !string_compare_lexl in *. eapply (tp_trans _ H); eauto.
Qed.

(** ** The order on versions *)

Lemma tp_compareIdent : total_preorder semver.compareIdent.
Proof.
  split.
  - intros [x|x] [y|y]; simpl; auto.
    + apply Z.compare_antisym.
    + apply (tp_antisym _ tp_string).
  - intros [x|x] [y|y] [z|z]; simpl; try congruence.
    + apply (tp_trans _ tp_Z).
    + apply (tp_trans _ tp_string).
Qed.

Lemma compareParts_lexl (s o : list string) :
  semver.compareParts s o = lexl semver.comparePrePart s o.
Proof.
  revert o; induction s as [|a s IH]; destruct o as [|b o]; simpl; auto.
  rewrite IH. reflexivity.
Qed.

Lemma tp_comparePrerelease : total_preorder semver.comparePrerelease.
Proof.
  assert (Hp : total_preorder semver.comparePrePart)
    by exact (tp_pullback _ tp_compareIdent semver.classify).
  pose proof (tp_pullback _ (tp_lexl _ Hp) (fun s => Split s ".")) as H.
  unfold semver.comparePrerelease.
  split; intros.
  - rewrite !compareParts_lexl. apply (tp_antisym _ H).
  - rewrite !compareParts_lexl in *. eapply (tp_trans _ H); eauto.
Qed.

Lemma tp_comparePre : total_preorder semver.comparePre.
Proof.
  pose proof tp_comparePrerelease as H.
  split; unfold semver.comparePre.
  - intros x y.
    destruct (semver.is_empty x), (semver.is_empty y); simpl; auto.
    apply (tp_antisym _ H).
  - intros x y z.
    destruct (semver.is_empty x), (semver.is_empty y), (semver.is_empty z);
      simpl; try congruence.
    apply (tp_trans _ H).
Qed.

Lemma Compare_lex (v o : semver.Version) :
  semver.Compare v o
  = lex2 Z.compare (lex2 Z.compare (lex2 Z.compare semver.comparePre))
         (version_key v) (version_key o).
Proof.
  reflexivity.
Qed.

Lemma tp_Compare : total_preorder semver.Compare.
Proof.
  pose proof (tp_lex2 _ tp_Z _ (tp_lex2 _ tp_Z _
               (tp_lex2 _ tp_Z _ tp_comparePre))) as H.
  split; intros.
  - rewrite !Compare_lex. apply (tp_antisym _ H).
  - rewrite !Compare_lex in *. eapply (tp_trans _ H); eauto.
Qed.

Lemma LessThan_Lt (v o : semver.Version) :
  semver.LessThan v o = true <-> semver.Compare v o = Lt.
Proof.
  unfold semver.LessThan. destruct (semver.Compare v o); split; congruence.
Qed.

Lemma ascending_le (a b : semver.Version) :
  semver.ascending a b <-> semver.Compare a b <> Gt.
Proof.
  unfold semver.ascending, semver.LessThan.
  rewrite (tp_antisym _ tp_Compare a b).
  destruct (semver.Compare a b); simpl; split; congruence.
Qed.

Lemma LessThan_irrefl (v : semver.Version) : semver.LessThan v v = false.
Proof.
  unfold semver.LessThan. now rewrite (tp_refl _ tp_Compare).
Qed.

Lemma LessThan_trans (a b c : semver.Version) :
  semver.LessThan a b = true -> semver.LessThan b c = true ->
  semver.LessThan a c = true.
Proof.
  rewrite !LessThan_Lt. intros H1 H2.
  apply (tp_lt_le _ tp_Compare a b c H1). congruence.
Qed.

Lemma LessThan_asym (a b : semver.Version) :
  semver.LessThan a b = true -> semver.LessThan b a = false.
Proof.
  unfold semver.LessThan. rewrite (tp_antisym _ tp_Compare a b).
  destruct (semver.Compare a b); simpl; congruence.
Qed.

Lemma ascending_trans (a b c : semver.Version) :
  semver.ascending a b -> semver.ascending b c -> semver.ascending a c.
Proof.
  rewrite !ascending_le. apply (tp_trans _ tp_Compare).
Qed.

(** ** Parsing a version *)

Lemma ParseInt_total (s : string) :
  (exists n, semver.ParseInt s = Ok n) \/ (exists e, semver.ParseInt s = Err e).
Proof.
  unfold semver.ParseInt. destruct (_ <=? _)%Z; eauto.
Qed.

Lemma segment_value_total (m : option string) :
  (exists n, semver.segment_value m = Ok n)
  \/ (exists e, semver.segment_value m = Err e).
Proof.
  destruct m; simpl; [apply ParseInt_total|eauto].
Qed.

(** [NewVersion] returns a version or an error: it never panics. *)
Lemma NewVersion_total (s : string) :
  (exists v, semver.NewVersion s = Ok v) \/ (exists e, semver.NewVersion s = Err e).
Proof.
  unfold semver.NewVersion.
  destruct (semver.span _ _) as [m1 r1].
  destruct (semver.is_empty m1); [eauto|].
  destruct (semver.opt_segment r1) as [m2 r2].
  destruct (semver.opt_segment r2) as [m3 r3].
  destruct (semver.opt_pre r3) as [m5 r4].
  destruct (semver.opt_meta r4) as [m8 r5].
  destruct (_ && _); [|eauto].
  destruct (ParseInt_total m1) as [[n ->]|[e ->]]; simpl; [|eauto].
  destruct (segment_value_total m2) as [[n2 ->]|[e ->]]; simpl; [|eauto].
  destruct (segment_value_total m3) as [[n3 ->]|[e ->]]; simpl; eauto.
Qed.

(** A parsed version remembers the string it was parsed from. *)
Lemma NewVersion_original (s : string) (v : semver.Version) :
  semver.NewVersion s = Ok v -> semver.original v = s.
Proof.
  unfold semver.NewVersion.
  destruct (semver.span _ _) as [m1 r1].
  destruct (semver.is_empty m1); [discriminate|].
  destruct (semver.opt_segment r1) as [m2 r2].
  destruct (semver.opt_segment r2) as [m3 r3].
  destruct (semver.opt_pre r3) as [m5 r4].
  destruct (semver.opt_meta r4) as [m8 r5].
  destruct (_ && _); [|discriminate].
  destruct (semver.ParseInt m1); simpl; try discriminate.
  destruct (semver.segment_value m2); simpl; try discriminate.
  destruct (semver.segment_value m3); simpl; try discriminate.
  intros [= <-]. reflexivity.
Qed.

(** ** The reference sort sorts *)

Lemma insert_perm (v : semver.Version) (l : list semver.Version) :
  Permutation (Ref.insert v l) (v :: l).
Proof.
  induction l as [|x l IH]; simpl; [reflexivity|].
  destruct (semver.LessThan v x); [reflexivity|].
  rewrite IH. apply perm_swap.
Qed.

Lemma sortCollection_perm (l : list semver.Version) :
  Permutation (Ref.sortCollection l) l.
Proof.
  induction l as [|x l IH]; simpl; [reflexivity|].
  rewrite insert_perm. now constructor.
Qed.

Lemma insert_sorted (v : semver.Version) (l : list semver.Version) :
  StronglySorted semver.ascending l ->
  StronglySorted semver.ascending (Ref.insert v l).
Proof.
  induction 1 as [|x l Hs IH Hx]; simpl.
  - repeat constructor.
  - destruct (semver.LessThan v x) eqn:E.
    + constructor; [now constructor|].
      assert (Hvx : semver.ascending v x) by now apply LessThan_asym.
      constructor; [exact Hvx|].
      eapply Forall_impl; [|exact Hx].
      intros y Hy. now apply (ascending_trans v x y).
    + constructor; [exact IH|].
      apply (Permutation_Forall (Permutation_sym (insert_perm v l))).
      constructor; [exact E|exact Hx].
Qed.

Lemma sortCollection_sorted (l : list semver.Version) :
  StronglySorted semver.ascending (Ref.sortCollection l).
Proof.
  induction l as [|x l IH]; simpl; [constructor|now apply insert_sorted].
Qed.

(** ** Release construction *)

Lemma rbind_Ok {A B : Type} (r : result A) (k : A -> result B) (b : B) :
  rbind r k = Ok b -> exists a, r = Ok a /\ k a = Ok b.
Proof.
  destruct r; simpl; intros H; try discriminate. eauto.
Qed.

Lemma bind_Ok {A B : Type} (m : M A) (k : A -> M B) (log : list string) (b : B) :
  bind m k = (log, Ok b) ->
  exists l1 a l2, m = (l1, Ok a) /\ k a = (l2, Ok b) /\ log = l1 ++ l2.
Proof.
  destruct m as [l1 [a|e|s]]; simpl; try discriminate.
  destruct (k a) as [l2 r] eqn:E. intros [= <- ->]. eauto 6.
Qed.

Section Construction.

Variable L : Lib.

Lemma parseFrom_Ok (vs : list string) :
  forall i vss, parseFrom L i vs = Ok vss ->
  Forall2 (fun s v => semver.NewVersion s = Ok v) vs vss.
Proof.
  induction vs as [|s vs IH]; simpl; intros i vss H.
  - injection H as <-. constructor.
  - destruct (semver.NewVersion s) as [v| |] eqn:E; try discriminate.
    apply rbind_Ok in H as (vss' & H & [= <-]).
    constructor; eauto.
Qed.

(** The loop stops at the first string that does not parse and reports its
    index and the string. *)
Lemma parseFrom_Err (vs : list string) :
  forall i, (exists s, In s vs /\ forall v, semver.NewVersion s <> Ok v) ->
  exists k s e,
    nth_error vs k = Some s /\ semver.NewVersion s = Err e /\
    (forall j t, (j < k)%nat -> nth_error vs j = Some t ->
                 exists v, semver.NewVersion t = Ok v) /\
    parseFrom L i vs
    = Err ("parsing version: index " +++ fmt_d (Z.of_nat (i + k)) +++ ": "
           +++ fmt_q L s +++ ": " +++ e).
Proof.
  induction vs as [|s vs IH]; intros i (bad & Hin & Hbad); [destruct Hin|].
  simpl. destruct (NewVersion_total s) as [[v Hv]|[e He]].
  - rewrite Hv.
    destruct (IH (S i)) as (k & t & e & Hk & He & Hbefore & Hres).
    { exists bad. split; [|exact Hbad].
      destruct Hin as [->|Hin]; [|exact Hin]. now elim (Hbad v). }
    exists (S k), t, e. repeat split; auto.
    + intros [|j] u Hj Hu; simpl in Hu.
      * injection Hu as <-. eauto.
      * apply (Hbefore j); [lia|exact Hu].
    + rewrite Hres. simpl. now replace (i + S k)%nat with (S i + k)%nat by lia.
  - rewrite He. exists 0%nat, s, e. repeat split; auto.
    + intros j t Hj. lia.
    + now rewrite Nat.add_0_r.
Qed.

Lemma versionsToReleases_map (vs : list string) :
  versionsToReleases L vs
  = rbind (parseFrom L 0 vs)
          (fun vss => Ok (map semverToRelease (sort_Sort L vss))).
Proof.
  unfold versionsToReleases, versionStringsToSemvers.
  destruct (parseFrom L 0 vs); simpl; auto.
  now rewrite fold_append_map.
Qed.

Lemma versionsToReleases_Ok (vs : list string) (rs : list Release) :
  versionsToReleases L vs = Ok rs ->
  exists vss,
    Forall2 (fun s v => semver.NewVersion s = Ok v) vs vss /\
    rs = map semverToRelease (sort_Sort L vss).
Proof.
  rewrite versionsToReleases_map. intros H.
  apply rbind_Ok in H as (vss & H & [= <-]).
  exists vss. split; [eapply parseFrom_Ok; eauto|reflexivity].
Qed.

(** Whatever the provider, a successful [GetReleases] returns what
    [versionsToReleases] built from some list of version strings. *)
Lemma GetReleases_built (p : Tracker) (log : list string) (rs : list Release) :
  GetReleases L p = (log, Ok rs) ->
  exists vs, versionsToReleases L vs = Ok rs.
Proof.
  unfold GetReleases. intros H.
  apply bind_Ok in H as (l1 & pp & l2 & _ & H & _).
  destruct pp as [cmd|spec|url jpath]; simpl in H.
  - unfold execAll in H.
    apply bind_Ok in H as (l3 & vs & l4 & _ & H & _).
    unfold lift in H. injection H as _ H. eauto.
  - unfold lift in H. injection H as _ H. unfold getterJsonPath in H.
    apply rbind_Ok in H as (localCopy & _ & H).
    apply rbind_Ok in H as (bs & _ & H).
    apply rbind_Ok in H as (tmp & _ & H).
    unfold extractVersions in H.
    apply rbind_Ok in H as (vs & _ & H). eauto.
  - unfold lift in H. injection H as _ H. unfold httpJsonPath in H.
    apply rbind_Ok in H as (res & _ & H).
    apply rbind_Ok in H as (tmp & _ & H).
    unfold extractVersions in H.
    apply rbind_Ok in H as (vs & _ & H). eauto.
Qed.

Lemma GetReleases_semverToRelease (p : Tracker) (log : list string)
  (rs : list Release) :
  GetReleases L p = (log, Ok rs) ->
  forall r, In r rs -> r = semverToRelease (Semver r).
Proof.
  intros H r Hr.
  apply GetReleases_built in H as (vs & H).
  apply versionsToReleases_Ok in H as (vss & _ & ->).
  apply in_map_iff in Hr as (v & <- & _). reflexivity.
Qed.

End Construction.

(** ** Selecting the latest release *)

Section Selection.

Variable L : Lib.
Variable p : Tracker.

Lemma Latest_unfold (constraint : string) (cons : semver.Constraints)
  (log : list string) (all : list Release) :
  NewConstraint L (effective_constraint constraint) = Ok cons ->
  GetReleases L p = (log, Ok all) ->
  Latest L p constraint
  = (log, match snd (latestLoop cons all semver.zero None) with
          | None => Err (noMatchError L (effective_constraint constraint) all)
          | Some latest => Ok latest
          end).
Proof.
  intros Hc Ha. unfold Latest. rewrite Hc, Ha. simpl.
  destruct (snd (latestLoop cons all semver.zero None)); simpl;
    now rewrite app_nil_r.
Qed.

Lemma noMatchError_map (constraint : string) (all : list Release) :
  noMatchError L constraint all
  = "no semver matching " +++ fmt_q L constraint +++ " found in "
    +++ fmt_strings (map (fun r => semver.Version_String (Semver r)) all).
Proof.
  unfold noMatchError. now rewrite fold_append_map.
Qed.

Lemma latestLoop_none (cons : semver.Constraints) (all : list Release) :
  (forall r, In r all -> semver.Check cons (Semver r) = false) ->
  forall v latest, latestLoop cons all v latest = (v, latest).
Proof.
  induction all as [|r all IH]; intros Hno v latest; simpl; [reflexivity|].
  rewrite (Hno r (or_introl eq_refl)). simpl.
  apply IH. intros r' Hr'. apply Hno. now right.
Qed.

(** What the loop has found after a pass over [all], started from the
    running maximum [v0] and the candidate [l0]. *)
Lemma latestLoop_spec (cons : semver.Constraints) (all : list Release) :
  forall v0 l0 v l,
    latestLoop cons all v0 l0 = (v, l) ->
    (v = v0 /\ l = l0 \/
     exists r, l = Some r /\ v = Semver r /\ In r all /\
               semver.Check cons (Semver r) = true /\
               semver.LessThan v0 (Semver r) = true) /\
    (forall r, In r all -> semver.Check cons (Semver r) = true ->
               semver.LessThan v (Semver r) = false).
Proof.
  induction all as [|r all IH]; simpl; intros v0 l0 v l H.
  - injection H as <- <-. split; [now left|]. intros r [].
  - destruct (semver.Check cons (Semver r)) eqn:Ec; simpl in H.
    + destruct (semver.LessThan v0 (Semver r)) eqn:El.
      * destruct (IH _ _ _ _ H) as [Hfound Hmax]. split.
        -- right. destruct Hfound as [[-> ->]|(r' & -> & -> & Hin & Hc & Hlt)].
           ++ exists r. auto 6.
           ++ exists r'. repeat split; auto.
              eapply LessThan_trans; eauto.
        -- intros r' [<-|Hin] Hc; [|now apply Hmax].
           destruct Hfound as [[-> _]|(r' & _ & -> & _ & _ & Hlt)].
           ++ apply LessThan_irrefl.
           ++ now apply LessThan_asym.
      * destruct (IH _ _ _ _ H) as [Hfound Hmax]. split.
        -- destruct Hfound as [?|(r' & -> & -> & Hin & Hc & Hlt)]; [now left|].
           right. exists r'. auto 6.
        -- intros r' [<-|Hin] Hc; [|now apply Hmax].
           destruct Hfound as [[-> _]|(r' & _ & -> & _ & _ & Hlt)]; [exact El|].
           destruct (semver.LessThan (Semver r') (Semver r)) eqn:E; [|reflexivity].
           rewrite (LessThan_trans _ _ _ Hlt E) in El. discriminate.
    + destruct (IH _ _ _ _ H) as [Hfound Hmax]. split.
      * destruct Hfound as [?|(r' & -> & -> & Hin & Hc & Hlt)]; [now left|].
        right. exists r'. auto 6.
      * intros r' [<-|Hin] Hc; [congruence|now apply Hmax].
Qed.

(** When [Latest] returns a release, it is one of the releases, satisfies the
    constraint, is above 0.0.0, and no release satisfying the constraint is
    above it. *)
Lemma Latest_maximal (constraint : string) (cons : semver.Constraints)
  (log log' : list string) (all : list Release) (r : Release) :
  NewConstraint L (effective_constraint constraint) = Ok cons ->
  GetReleases L p = (log, Ok all) ->
  Latest L p constraint = (log', Ok r) ->
  In r all /\ semver.Check cons (Semver r) = true /\
  semver.LessThan semver.zero (Semver r) = true /\
  forall r', In r' all -> semver.Check cons (Semver r') = true ->
             semver.LessThan (Semver r) (Semver r') = false.
Proof.
  intros Hc Ha H. rewrite (Latest_unfold _ _ _ _ Hc Ha) in H.
  destruct (latestLoop cons all semver.zero None) as [v l] eqn:E.
  simpl in H. destruct l as [r0|]; [|discriminate].
  injection H as _ <-.
  destruct (latestLoop_spec _ _ _ _ _ _ E) as [Hfound Hmax].
  destruct Hfound as [[_ [=]]|(r' & [= <-] & -> & Hin & Hck & Hlt)].
  auto.
Qed.

(** [Latest] finds a release as soon as one release above 0.0.0 satisfies the
    constraint. *)
Lemma Latest_finds (constraint : string) (cons : semver.Constraints)
  (log : list string) (all : list Release) (r : Release) :
  NewConstraint L (effective_constraint constraint) = Ok cons ->
  GetReleases L p = (log, Ok all) ->
  In r all -> semver.Check cons (Semver r) = true ->
  semver.LessThan semver.zero (Semver r) = true ->
  exists r', Latest L p constraint = (log, Ok r').
Proof.
  intros Hc Ha Hin Hck Hlt. rewrite (Latest_unfold _ _ _ _ Hc Ha).
  destruct (latestLoop cons all semver.zero None) as [v l] eqn:E.
  simpl. destruct l as [r0|]; [eauto|].
  destruct (latestLoop_spec _ _ _ _ _ _ E) as [Hfound Hmax].
  destruct Hfound as [[-> _]|(r' & [=] & _)].
  rewrite (Hmax r Hin Hck) in Hlt. discriminate.
Qed.

End Selection.

(** [Latest] reports no match as soon as no release satisfying the constraint
    is above 0.0.0, even when some release satisfies the constraint: the
    running maximum starts at the zero value of [semver.Version]. *)
Lemma Latest_misses_zero (L : Lib) (p : Tracker) (constraint : string)
  (cons : semver.Constraints) (log : list string) (all : list Release) :
  NewConstraint L (effective_constraint constraint) = Ok cons ->
  GetReleases L p = (log, Ok all) ->
  (forall r, In r all -> semver.Check cons (Semver r) = true ->
             semver.LessThan semver.zero (Semver r) = false) ->
  Latest L p constraint
  = (log, Err (noMatchError L (effective_constraint constraint) all)).
Proof.
  intros Hc Ha Hz. rewrite (Latest_unfold L p _ _ _ _ Hc Ha).
  destruct (latestLoop cons all semver.zero None) as [v l] eqn:E.
  simpl. destruct l as [r0|]; [|reflexivity].
  destruct (latestLoop_spec _ _ _ _ _ _ E) as [Hfound _].
  destruct Hfound as [[_ [=]]|(r' & [= <-] & -> & Hin & Hck & Hlt)].
  rewrite (Hz _ Hin Hck) in Hlt. discriminate.
Qed.

(** ** The claims *)

(** C1 (the code departs from it).  [Latest] does not always return the
    maximal release satisfying the constraint: with the single tag 0.0.0 and
    the constraint [>= 0.0.0], the release 0.0.0 is discovered and satisfies
    the compiled constraint, yet [Latest] fails with "no semver matching",
    because 0.0.0 is not above the zero value the running maximum starts from. *)
Theorem Latest_rejects_version_zero :
  let p := Ref.gitTracker (lines ["0.0.0"]) EmptyString 0 in
  (exists cons r,
      NewConstraint Ref.lib ">= 0.0.0" = Ok cons /\
      GetReleases Ref.lib p = ([], Ok [r]) /\
      Version r = "0.0.0" /\
      semver.Check cons (Semver r) = true) /\
  Latest Ref.lib p ">= 0.0.0"
  = ([], Err ("no semver matching " +++ dq +++ ">= 0.0.0" +++ dq
              +++ " found in [0.0.0]")).
Proof.
  split; [|reflexivity].
  eexists. eexists. split; [reflexivity|]. split; [reflexivity|].
  split; reflexivity.
Qed.

(** The example of section 8: among 0.9.0, 1.0.0, 1.2.3 and 2.0.0-rc.1 the
    constraint [> 1.0.0] selects 1.2.3; the pre-release is not selected. *)
Example Latest_above_1_0_0 :
  Latest Ref.lib
    (Ref.gitTracker (lines ["0.9.0"; "1.0.0"; "1.2.3"; "2.0.0-rc.1"])
                    EmptyString 0)
    "> 1.0.0"
  = ([], Ok (mkRelease (semver.mkVersion 1 2 3 EmptyString EmptyString "1.2.3")
                       "1.2.3" EmptyString)).
Proof.
  reflexivity.
Qed.

(** The Docker Hub example of section 8: the tags v1.0.0 and v1.1.0 are
    extracted and the default constraint selects 1.1.0. *)
Example Latest_docker_default :
  Latest Ref.lib Ref.dockerTracker EmptyString
  = ([], Ok (mkRelease (semver.mkVersion 1 1 0 EmptyString EmptyString "v1.1.0")
                       "1.1.0" EmptyString)).
Proof.
  reflexivity.
Qed.

(** C2.  If some candidate string does not parse as a semantic version, the
    conversion fails as a whole: [versionStringsToSemvers], and with it
    [versionsToReleases] and [extractVersions], return an error (no list at
    all) whose message holds the index of the first string that failed, in
    decimal, and that string as [%q] prints it. *)
Theorem versionStringsToSemvers_all_or_nothing (L : Lib) (vs : list string) :
  (exists s, In s vs /\ forall v, semver.NewVersion s <> Ok v) ->
  exists i s e,
    nth_error vs i = Some s /\ semver.NewVersion s = Err e /\
    (forall j t, (j < i)%nat -> nth_error vs j = Some t ->
                 exists v, semver.NewVersion t = Ok v) /\
    let msg := "parsing version: index " +++ fmt_d (Z.of_nat i) +++ ": "
               +++ fmt_q L s +++ ": " +++ e in
    versionStringsToSemvers L vs = Err msg /\
    versionsToReleases L vs = Err msg /\
    forall tmp jpath,
      extractVersionStrings L tmp jpath = Ok vs ->
      extractVersions L tmp jpath = Err msg.
Proof.
  intros Hbad.
  destruct (parseFrom_Err L vs 0 Hbad) as (i & s & e & Hi & He & Hbefore & Hres).
  exists i, s, e. simpl in Hres.
  assert (Hv : versionStringsToSemvers L vs
               = Err ("parsing version: index " +++ fmt_d (Z.of_nat i) +++ ": "
                      +++ fmt_q L s +++ ": " +++ e)).
  { unfold versionStringsToSemvers. now rewrite Hres. }
  assert (Hr : versionsToReleases L vs
               = Err ("parsing version: index " +++ fmt_d (Z.of_nat i) +++ ": "
                      +++ fmt_q L s +++ ": " +++ e)).
  { unfold versionsToReleases. now rewrite Hv. }
  repeat split; auto.
  intros tmp jpath Hx. unfold extractVersions. now rewrite Hx.
Qed.

Lemma versionStringsToSemvers_all_or_nothing_witness :
  exists i s e,
    nth_error ["1.0.0"; "latest"; "2.0.0"] i = Some s /\
    semver.NewVersion s = Err e /\
    (forall j t, (j < i)%nat ->
                 nth_error ["1.0.0"; "latest"; "2.0.0"] j = Some t ->
                 exists v, semver.NewVersion t = Ok v) /\
    let msg := "parsing version: index " +++ fmt_d (Z.of_nat i) +++ ": "
               +++ fmt_q Ref.lib s +++ ": " +++ e in
    versionStringsToSemvers Ref.lib ["1.0.0"; "latest"; "2.0.0"] = Err msg /\
    versionsToReleases Ref.lib ["1.0.0"; "latest"; "2.0.0"] = Err msg /\
    forall tmp jpath,
      extractVersionStrings Ref.lib tmp jpath = Ok ["1.0.0"; "latest"; "2.0.0"] ->
      extractVersions Ref.lib tmp jpath = Err msg.
Proof.
  apply (versionStringsToSemvers_all_or_nothing Ref.lib
           ["1.0.0"; "latest"; "2.0.0"]).
  exists "latest". split; [simpl; auto|].
  intros v. vm_compute. discriminate.
Defined.

(** The message of that failure on a concrete list. *)
Example versionsToReleases_latest_tag :
  versionsToReleases Ref.lib ["1.0.0"; "latest"; "2.0.0"]
  = Err ("parsing version: index 1: " +++ dq +++ "latest" +++ dq
         +++ ": Invalid Semantic Version").
Proof.
  reflexivity.
Qed.

Lemma prefixb_append (sub b : string) : prefixb sub (sub +++ b) = true.
Proof.
  induction sub as [|x sub IH]; simpl; [reflexivity|].
  now rewrite Ascii.eqb_refl, IH.
Qed.

Lemma contains_substringb (s sub : string) :
  contains s sub -> substringb sub s = true.
Proof.
  intros (a & b & ->). induction a as [|x a IH]; simpl.
  - destruct (sub +++ b) eqn:E; simpl; rewrite <- E, prefixb_append; reflexivity.
  - rewrite IH. apply orb_true_r.
Qed.

(** C3, as the claim states it, fails: the command prints the tag v1, no
    release is above 1.0.0, and the message of the error lists 1.0.0; the
    discovered string v1 does not occur in it. *)
Lemma Latest_no_match_omits_raw_string :
  let p := Ref.gitTracker (lines ["v1"]) EmptyString 0 in
  let msg := "no semver matching " +++ dq +++ "> 1.0.0" +++ dq
             +++ " found in [1.0.0]" in
  exec p (gitCommand "helm/helm") = ([], Ok ["v1"]) /\
  Latest Ref.lib p "> 1.0.0" = ([], Err msg) /\
  ~ contains msg "v1".
Proof.
  cbv zeta. split; [reflexivity|]. split; [reflexivity|].
  intros H. apply contains_substringb in H. vm_compute in H. discriminate.
Qed.

(** C3 (amended).  If the constraint compiles, the releases are fetched and
    none of them satisfies the constraint, [Latest] fails with the error
    "no semver matching CONSTRAINT found in VERSIONS", where VERSIONS lists,
    in order and unfiltered, the [Version] of every fetched release, that is
    the normalised rendering of its parsed version and not the string the
    provider produced; each release's [Version] occurs in the message. *)
Theorem Latest_no_match (L : Lib) (p : Tracker) (constraint : string)
  (cons : semver.Constraints) (log : list string) (all : list Release) :
  NewConstraint L (effective_constraint constraint) = Ok cons ->
  GetReleases L p = (log, Ok all) ->
  (forall r, In r all -> semver.Check cons (Semver r) = false) ->
  let msg := "no semver matching " +++ fmt_q L (effective_constraint constraint)
             +++ " found in " +++ fmt_strings (map Version all) in
  Latest L p constraint = (log, Err msg) /\
  forall r, In r all -> contains msg (Version r).
Proof.
  intros Hc Ha Hno msg.
  assert (Hmap : map (fun r => semver.Version_String (Semver r)) all
                 = map Version all).
  { apply map_ext_in. intros r Hr.
    now rewrite (GetReleases_semverToRelease L p log all Ha r Hr) at 2. }
  split.
  - rewrite (Latest_unfold L p _ _ _ _ Hc Ha).
    rewrite (latestLoop_none _ _ Hno). simpl.
    now rewrite noMatchError_map, Hmap.
  - intros r Hr. unfold msg, fmt_strings.
    do 4 apply contains_prepend. apply contains_append.
    apply Join_contains. now apply in_map.
Qed.

Lemma Latest_no_match_witness :
  let p := Ref.gitTracker (lines ["1.0.0"]) EmptyString 0 in
  let all := [mkRelease (semver.mkVersion 1 0 0 EmptyString EmptyString "1.0.0")
                        "1.0.0" EmptyString] in
  let msg := "no semver matching " +++ fmt_q Ref.lib (effective_constraint "> 1.0.0")
             +++ " found in " +++ fmt_strings (map Version all) in
  Latest Ref.lib p "> 1.0.0" = ([], Err msg) /\
  forall r, In r all -> contains msg (Version r).
Proof.
  cbv zeta.
  eapply (Latest_no_match Ref.lib
            (Ref.gitTracker (lines ["1.0.0"]) EmptyString 0) "> 1.0.0" _ []).
  - reflexivity.
  - reflexivity.
  - intros r [<-|[]]. reflexivity.
Defined.

(** The message of section 8: one release 1.0.0 and the constraint
    [> 1.0.0]. *)
Example Latest_no_match_message :
  Latest Ref.lib (Ref.gitTracker (lines ["1.0.0"]) EmptyString 0) "> 1.0.0"
  = ([], Err ("no semver matching " +++ dq +++ "> 1.0.0" +++ dq
              +++ " found in [1.0.0]")).
Proof.
  reflexivity.
Qed.

(** C4.  When the query result is the empty sequence, [extractVersionStrings]
    fails with "jsonpath: PATH: returned nothing", and so do [extractVersions]
    and both document providers: no list of version strings and no list of
    releases, empty or not, is returned. *)
Theorem extractVersionStrings_nothing_is_error (L : Lib) (tmp v : value)
  (jpath : string) :
  RecursivelyCastKeysToStrings L tmp = Ok v ->
  jsonpath_Get L jpath v = Ok (Seq []) ->
  let msg := "jsonpath: " +++ dq +++ jpath +++ dq +++ ": returned nothing: "
             +++ fmt_v L v in
  extractVersionStrings L tmp jpath = Err msg /\
  extractVersions L tmp jpath = Err msg /\
  (forall p url res,
      httpGetter_DoRequest p url = Ok res -> yaml_Unmarshal L res = Ok tmp ->
      httpJsonPath L p url jpath = Err msg) /\
  (forall p spec localCopy bs,
      GetterJSONPath.Versions spec = jpath ->
      dep_Resolve p (GetterJSONPath.Source spec) = Ok localCopy ->
      fs_ReadFile p localCopy = Ok bs -> yaml_Unmarshal L bs = Ok tmp ->
      getterJsonPath L p spec = Err msg).
Proof.
  intros Hcast Hget msg.
  assert (Hs : extractVersionStrings L tmp jpath = Err msg).
  { unfold extractVersionStrings. rewrite Hcast. simpl. rewrite Hget. reflexivity. }
  assert (Hv : extractVersions L tmp jpath = Err msg).
  { unfold extractVersions. now rewrite Hs. }
  repeat split; auto.
  - intros p url res Hreq Hyaml. unfold httpJsonPath.
    rewrite Hreq. simpl. rewrite Hyaml. exact Hv.
  - intros p spec localCopy bs Hpath Hres Hread Hyaml. unfold getterJsonPath.
    rewrite Hres. simpl. rewrite Hread. simpl. rewrite Hyaml. simpl.
    now rewrite Hpath.
Qed.

Lemma extractVersionStrings_nothing_is_error_witness :
  let msg := "jsonpath: " +++ dq +++ "$.versions[*]" +++ dq
             +++ ": returned nothing: " +++ fmt_v Ref.lib Ref.emptyDoc in
  extractVersionStrings Ref.lib Ref.emptyDoc "$.versions[*]" = Err msg /\
  extractVersions Ref.lib Ref.emptyDoc "$.versions[*]" = Err msg /\
  (forall p url res,
      httpGetter_DoRequest p url = Ok res ->
      yaml_Unmarshal Ref.lib res = Ok Ref.emptyDoc ->
      httpJsonPath Ref.lib p url "$.versions[*]" = Err msg) /\
  (forall p spec localCopy bs,
      GetterJSONPath.Versions spec = "$.versions[*]" ->
      dep_Resolve p (GetterJSONPath.Source spec) = Ok localCopy ->
      fs_ReadFile p localCopy = Ok bs ->
      yaml_Unmarshal Ref.lib bs = Ok Ref.emptyDoc ->
      getterJsonPath Ref.lib p spec = Err msg).
Proof.
  exact (extractVersionStrings_nothing_is_error Ref.lib Ref.emptyDoc
           Ref.emptyDoc "$.versions[*]" eq_refl eq_refl).
Defined.

(** A tracker whose document lists no version fails instead of returning no
    release. *)
Example GetReleases_empty_document :
  GetReleases Ref.lib (Ref.jsonPathTracker Ref.emptyBody)
  = ([], Err ("jsonpath: " +++ dq +++ "$.versions[*]" +++ dq
              +++ ": returned nothing: map[versions:[]]")).
Proof.
  reflexivity.
Qed.

(** ** Extraction from the nodes of a query result *)

Section Extraction.

Variable L : Lib.

Lemma appendAnyKeys_strings (typed : list (value * value)) :
  stringKeyed typed = true ->
  forall vs, appendAnyKeys typed vs = Ok (vs ++ anyKeys typed).
Proof.
  induction typed as [|[k x] typed IH]; simpl; intros H vs.
  - now rewrite app_nil_r.
  - apply andb_prop in H as [Hk H].
    destruct k; simpl in Hk; try discriminate.
    rewrite (IH H). simpl. now rewrite <- app_assoc.
Qed.

Lemma collect_supported (raw : list value) :
  Forall (fun r => keys_are_strings r = true) raw ->
  forallb is_string_or_map raw = true ->
  forall vs, collect L raw vs = Ok (vs ++ flat_map emitted raw).
Proof.
  induction 1 as [|r raw Hr Hraw IH]; simpl; intros Hs vs.
  - now rewrite app_nil_r.
  - apply andb_prop in Hs as [Hs1 Hs2].
    destruct r; simpl in Hs1; try discriminate; simpl.
    + rewrite (IH Hs2). now rewrite <- app_assoc.
    + rewrite fold_append_map, (IH Hs2). now rewrite <- app_assoc.
    + simpl in Hr. rewrite (appendAnyKeys_strings _ Hr). simpl.
      rewrite (IH Hs2). now rewrite <- app_assoc.
Qed.

Lemma collect_unsupported (raw : list value) :
  Forall (fun r => keys_are_strings r = true) raw ->
  forallb is_string_or_map raw = false ->
  forall vs, exists e, collect L raw vs = Err e.
Proof.
  induction 1 as [|r raw Hr Hraw IH]; simpl; intros Hs vs; [discriminate|].
  destruct r; simpl in Hs; simpl; eauto.
  simpl in Hr. rewrite (appendAnyKeys_strings _ Hr). simpl. eauto.
Qed.

(** On a non-empty sequence the function is the loop over its nodes. *)
Lemma extractVersionStrings_Seq (tmp v : value) (jpath : string)
  (raw : list value) :
  RecursivelyCastKeysToStrings L tmp = Ok v ->
  jsonpath_Get L jpath v = Ok (Seq raw) ->
  raw <> [] ->
  extractVersionStrings L tmp jpath = collect L raw [].
Proof.
  intros Hcast Hget Hraw. unfold extractVersionStrings.
  rewrite Hcast. simpl. rewrite Hget. simpl.
  destruct raw; [congruence|reflexivity].
Qed.

(** A single map is treated as the sequence holding it. *)
Lemma extractVersionStrings_MapStr (tmp v : value) (jpath : string)
  (m : list (string * value)) :
  RecursivelyCastKeysToStrings L tmp = Ok v ->
  jsonpath_Get L jpath v = Ok (MapStr m) ->
  extractVersionStrings L tmp jpath = Ok (map fst m).
Proof.
  intros Hcast Hget. unfold extractVersionStrings.
  rewrite Hcast. simpl. rewrite Hget. simpl.
  now rewrite fold_append_map.
Qed.

End Extraction.

(** C5.  On a sequence of nodes whose maps are keyed by strings, the loop of
    [extractVersionStrings] returns, when every node is a string or a map,
    the concatenation in node order of what each node emits (a string
    itself, a map its keys in the order the map is visited), and an error as
    soon as some node is neither.  So a sequence of strings is returned as it
    is, and a map yields exactly its keys, the same ones up to order whatever
    the order of the visit. *)
Theorem collect_spec (L : Lib) (raw : list value) :
  Forall (fun r => keys_are_strings r = true) raw ->
  (if forallb is_string_or_map raw
   then collect L raw [] = Ok (flat_map emitted raw)
   else exists e, collect L raw [] = Err e) /\
  (forall ss, raw = map Str ss -> collect L raw [] = Ok ss) /\
  (forall m, raw = [MapStr m] ->
     exists ks, collect L raw [] = Ok ks /\
       (forall k, In k ks <-> In k (map fst m)) /\
       forall m', Permutation m m' ->
         exists ks', collect L [MapStr m'] [] = Ok ks' /\ Permutation ks ks').
Proof.
  intros Hkeys. split; [|split].
  - destruct (forallb is_string_or_map raw) eqn:E.
    + now rewrite (collect_supported L raw Hkeys E).
    + now apply collect_unsupported.
  - intros ss ->. rewrite collect_supported.
    + simpl. clear Hkeys. induction ss as [|s ss IH]; simpl; congruence.
    + exact Hkeys.
    + clear Hkeys. induction ss; simpl; auto.
  - intros m ->. exists (map fst m). simpl. rewrite fold_append_map. simpl.
    split; [reflexivity|]. split; [tauto|].
    intros m' Hperm. exists (map fst m'). rewrite fold_append_map. simpl.
    split; [reflexivity|]. now apply Permutation_map.
Qed.

Lemma collect_spec_witness :
  let raw := [Str "1.1.0"; MapStr [("2.0.0", Nil); ("1.0.0", Nil)]; Str "0.9.0"] in
  (if forallb is_string_or_map raw
   then collect Ref.lib raw [] = Ok (flat_map emitted raw)
   else exists e, collect Ref.lib raw [] = Err e) /\
  (forall ss, raw = map Str ss -> collect Ref.lib raw [] = Ok ss) /\
  (forall m, raw = [MapStr m] ->
     exists ks, collect Ref.lib raw [] = Ok ks /\
       (forall k, In k ks <-> In k (map fst m)) /\
       forall m', Permutation m m' ->
         exists ks', collect Ref.lib [MapStr m'] [] = Ok ks' /\ Permutation ks ks').
Proof.
  apply (collect_spec Ref.lib
           [Str "1.1.0"; MapStr [("2.0.0", Nil); ("1.0.0", Nil)]; Str "0.9.0"]).
  repeat constructor.
Defined.

(** Strings keep their order; a map contributes its keys where it stands. *)
Example collect_mixed :
  collect Ref.lib
    [Str "1.1.0"; MapStr [("2.0.0", Nil); ("1.0.0", Nil)]; Str "0.9.0"] []
  = Ok ["1.1.0"; "2.0.0"; "1.0.0"; "0.9.0"].
Proof.
  reflexivity.
Qed.

(** A number among the nodes is an error. *)
Example collect_number :
  collect Ref.lib [Str "1.1.0"; Int 3; Str "0.9.0"] []
  = Err "jsonpath: unexpected type of result: int=3".
Proof.
  reflexivity.
Qed.

(** A map keyed by arbitrary values panics at a key that is not a string. *)
Example collect_int_key :
  collect Ref.lib [MapAny [(Str "1.0.0", Nil); (Int 3, Nil)]] []
  = Panic "interface conversion: interface {} is int, not string".
Proof.
  reflexivity.
Qed.

(** C6.  [GetProvider] looks at the sources in the order jsonPath,
    dockerImageTags, gitTags, githubReleases, and returns the provider of the
    first one that is not empty; when all four are empty it returns the error
    "no versions provider specified". *)
Theorem GetProvider_order (p : Tracker) :
  let vf := VersionsFrom_ (Spec_ p) in
  let jsonPath := GetterJSONPath.Source (JSONPath vf) in
  let docker := DockerImageTags.Source (DockerImageTags vf) in
  let git := GitTags.Source (GitTags vf) in
  let github := GitHubReleases.Source (GitHubReleases vf) in
  let host := GitHubReleases.Host (GitHubReleases vf) in
  (jsonPath <> EmptyString ->
   GetProvider p = Ok (getterJsonPathProvider (JSONPath vf))) /\
  (jsonPath = EmptyString -> docker <> EmptyString ->
   GetProvider p
   = Ok (httpJsonPathProvider
           ("https://registry.hub.docker.com/v2/repositories/" +++ docker
            +++ "/tags/")
           "$.results[*].name")) /\
  (jsonPath = EmptyString -> docker = EmptyString -> git <> EmptyString ->
   GetProvider p
   = Ok (execProvider
           ("git ls-remote --tags git://" +++ git
            +++ ".git | grep -v { | awk '{ print $2 }' | cut -d'/' -f 3"))) /\
  (jsonPath = EmptyString -> docker = EmptyString -> git = EmptyString ->
   github <> EmptyString ->
   GetProvider p
   = Ok (httpJsonPathProvider
           ("https://"
            +++ (if semver.is_empty host then "api.github.com" else host)
            +++ "/repos/" +++ github +++ "/releases")
           "$[*].tag_name")) /\
  (jsonPath = EmptyString -> docker = EmptyString -> git = EmptyString ->
   github = EmptyString ->
   GetProvider p = Err "no versions provider specified").
Proof.
  cbv zeta. unfold GetProvider.
  repeat split; intros;
    repeat match goal with
           | H : _ = EmptyString |- _ => rewrite H; clear H
           | H : _ <> EmptyString |- _ =>
               apply is_empty_false in H; rewrite H; clear H
           end; reflexivity.
Qed.

Lemma GetProvider_order_witness :
  GetProvider Ref.dockerTracker
  = Ok (httpJsonPathProvider
          "https://registry.hub.docker.com/v2/repositories/library/golang/tags/"
          "$.results[*].name").
Proof.
  apply (proj1 (proj2 (GetProvider_order Ref.dockerTracker))).
  - reflexivity.
  - discriminate.
Defined.

(** With every source filled in, the jsonPath source is the one used. *)
Example GetProvider_crowded :
  GetProvider Ref.crowdedTracker
  = Ok (getterJsonPathProvider
          (GetterJSONPath.mk "versions.yaml" "$.versions[*]" EmptyString)).
Proof.
  reflexivity.
Qed.

(** ** The command-output provider *)

Lemma nonempty_length (s : string) :
  (0 <? String.length s)%nat = negb (semver.is_empty s).
Proof.
  destruct s; reflexivity.
Qed.

Lemma fold_keep_nonempty (entries vs : list string) :
  fold_left (fun vs e => if negb (semver.is_empty e) then vs ++ [e] else vs)
            entries vs
  = vs ++ filter (fun e => negb (semver.is_empty e)) entries.
Proof.
  revert vs; induction entries as [|e entries IH]; intros vs; simpl.
  - now rewrite app_nil_r.
  - rewrite IH. destruct (semver.is_empty e); simpl; [reflexivity|].
    now rewrite <- app_assoc.
Qed.

(** [exec] in terms of the run of the command. *)
Lemma exec_unfold (p : Tracker) (cmd : string) :
  let run := cmdSite_run p "sh" ["-c"; cmd] in
  exec p cmd
  = (if semver.is_empty (run_stderr run) then [] else [run_stderr run],
     if (run_status run =? 0)%Z
     then Ok (filter (fun e => negb (semver.is_empty e))
                     (Split (run_stdout run) nl))
     else Err ("exit status " +++ fmt_d (run_status run))).
Proof.
  cbv zeta. unfold exec, CaptureStrings.
  rewrite nonempty_length.
  destruct (semver.is_empty (run_stderr _)); simpl;
    destruct (run_status _ =? 0)%Z; simpl;
    rewrite ?fold_keep_nonempty; reflexivity.
Qed.

(** C7.  For the run of [sh -c cmd]: what the command wrote on standard
    error, when not empty, is logged as one line and changes nothing else; a
    non-zero exit status makes [exec] and [execAll] fail; on exit status zero
    [exec] returns the lines of standard output that are not empty, in order,
    and [execAll], when it succeeds, returns as many releases as there are
    such lines, their versions being the parsed lines up to order.  On the
    output 1.0.0, empty line, 2.0.0 it returns exactly two releases. *)
Theorem exec_spec (L : Lib) (p : Tracker) (cmd : string) :
  (forall l, Permutation (sort_Sort L l) l) ->
  let run := cmdSite_run p "sh" ["-c"; cmd] in
  let entries :=
    filter (fun e => negb (semver.is_empty e)) (Split (run_stdout run) nl) in
  let logged :=
    if semver.is_empty (run_stderr run) then [] else [run_stderr run] in
  fst (exec p cmd) = logged /\
  fst (execAll L p cmd) = logged /\
  (run_status run <> 0%Z ->
   exists e, snd (exec p cmd) = Err e /\ snd (execAll L p cmd) = Err e) /\
  (run_status run = 0%Z ->
   snd (exec p cmd) = Ok entries /\
   forall rs, snd (execAll L p cmd) = Ok rs ->
     List.length rs = List.length entries /\
     exists vss,
       Forall2 (fun s v => semver.NewVersion s = Ok v) entries vss /\
       Permutation (map Semver rs) vss) /\
  (run_status run = 0%Z ->
   run_stdout run = lines ["1.0.0"; EmptyString; "2.0.0"] ->
   exists r1 r2, snd (execAll L p cmd) = Ok [r1; r2]).
Proof.
  intros Hperm run entries logged.
  assert (Hexec : exec p cmd
                  = (logged, if (run_status run =? 0)%Z then Ok entries
                             else Err ("exit status " +++ fmt_d (run_status run))))
    by apply exec_unfold.
  assert (Hall : execAll L p cmd
                 = (logged, if (run_status run =? 0)%Z
                            then versionsToReleases L entries
                            else Err ("exit status " +++ fmt_d (run_status run)))).
  { unfold execAll. rewrite Hexec.
    destruct (run_status run =? 0)%Z; simpl; [|reflexivity].
    now rewrite app_nil_r. }
  rewrite Hexec, Hall. simpl.
  split; [reflexivity|]. split; [reflexivity|]. split; [|split].
  - intros Hst. apply Z.eqb_neq in Hst. rewrite Hst. eauto.
  - intros Hst. rewrite Hst. simpl. split; [reflexivity|].
    intros rs Hrs.
    apply versionsToReleases_Ok in Hrs as (vss & Hparse & ->).
    assert (Hsem : map Semver (map semverToRelease (sort_Sort L vss))
                   = sort_Sort L vss).
    { rewrite map_map. simpl. apply map_id. }
    split.
    + rewrite length_map, (Permutation_length (Hperm vss)).
      symmetry. eapply Forall2_length; eauto.
    + exists vss. split; [exact Hparse|]. rewrite Hsem. apply Hperm.
  - intros Hst Hout. rewrite Hst. simpl.
    unfold entries. rewrite Hout. simpl.
    rewrite versionsToReleases_map. simpl.
    match goal with
    | |- context [sort_Sort L ?l] =>
        pose proof (Permutation_length (Hperm l)) as Hlen; simpl in Hlen;
        destruct (sort_Sort L l) as [|v1 [|v2 [|v3 l']]]; try discriminate
    end.
    simpl. eauto.
Qed.

Lemma exec_spec_witness :
  let p := Ref.gitTracker (lines ["1.0.0"; EmptyString; "2.0.0"])
                          "warning: redirecting" 0 in
  let cmd := "git ls-remote --tags git://helm/helm.git" in
  let run := cmdSite_run p "sh" ["-c"; cmd] in
  let entries :=
    filter (fun e => negb (semver.is_empty e)) (Split (run_stdout run) nl) in
  let logged :=
    if semver.is_empty (run_stderr run) then [] else [run_stderr run] in
  fst (exec p cmd) = logged /\
  fst (execAll Ref.lib p cmd) = logged /\
  (run_status run <> 0%Z ->
   exists e, snd (exec p cmd) = Err e /\ snd (execAll Ref.lib p cmd) = Err e) /\
  (run_status run = 0%Z ->
   snd (exec p cmd) = Ok entries /\
   forall rs, snd (execAll Ref.lib p cmd) = Ok rs ->
     List.length rs = List.length entries /\
     exists vss,
       Forall2 (fun s v => semver.NewVersion s = Ok v) entries vss /\
       Permutation (map Semver rs) vss) /\
  (run_status run = 0%Z ->
   run_stdout run = lines ["1.0.0"; EmptyString; "2.0.0"] ->
   exists r1 r2, snd (execAll Ref.lib p cmd) = Ok [r1; r2]).
Proof.
  exact (exec_spec Ref.lib
           (Ref.gitTracker (lines ["1.0.0"; EmptyString; "2.0.0"])
                           "warning: redirecting" 0)
           "git ls-remote --tags git://helm/helm.git"
           sortCollection_perm).
Defined.

(** The run of section 8: two releases, the empty line dropped, the warning
    logged. *)
Example execAll_two_releases :
  execAll Ref.lib
    (Ref.gitTracker (lines ["1.0.0"; EmptyString; "2.0.0"])
                    "warning: redirecting" 0)
    "git ls-remote --tags git://helm/helm.git"
  = (["warning: redirecting"],
     Ok [mkRelease (semver.mkVersion 1 0 0 EmptyString EmptyString "1.0.0")
                   "1.0.0" EmptyString;
         mkRelease (semver.mkVersion 2 0 0 EmptyString EmptyString "2.0.0")
                   "2.0.0" EmptyString]).
Proof.
  reflexivity.
Qed.

(** A failed command: the error is returned, the warning still logged. *)
Example execAll_exit_status :
  execAll Ref.lib (Ref.gitTracker EmptyString "fatal: unable to connect" 128)
          "git ls-remote --tags git://helm/helm.git"
  = (["fatal: unable to connect"], Err "exit status 128").
Proof.
  reflexivity.
Qed.

(** ** What a release carries *)

(** C8, as the claim states it, fails: the tag v1.2.3 becomes a release whose
    [Version] is 1.2.3, not the string the provider produced. *)
Lemma Release_Version_is_not_raw :
  exec (Ref.gitTracker (lines ["v1.2.3"]) EmptyString 0)
       "git ls-remote --tags git://helm/helm.git"
  = ([], Ok ["v1.2.3"]) /\
  GetReleases Ref.lib (Ref.gitTracker (lines ["v1.2.3"]) EmptyString 0)
  = ([], Ok [mkRelease (semver.mkVersion 1 2 3 EmptyString EmptyString "v1.2.3")
                       "1.2.3" EmptyString]) /\
  "1.2.3" <> "v1.2.3".
Proof.
  split; [reflexivity|]. split; [reflexivity|]. discriminate.
Qed.

(** C8 (amended).  Every release built from a list of version strings carries
    in [Version] the normalised rendering [String()] of its parsed version;
    the string the provider produced is one of the given strings and is kept
    inside the parsed version, as its [original]. *)
Theorem Release_Version_is_normalised (L : Lib) (vs : list string)
  (rs : list Release) :
  (forall l, Permutation (sort_Sort L l) l) ->
  versionsToReleases L vs = Ok rs ->
  forall r, In r rs ->
    Version r = semver.Version_String (Semver r) /\
    In (semver.original (Semver r)) vs /\
    semver.NewVersion (semver.original (Semver r)) = Ok (Semver r).
Proof.
  intros Hperm H r Hr.
  apply versionsToReleases_Ok in H as (vss & Hparse & ->).
  apply in_map_iff in Hr as (v & <- & Hv). simpl.
  split; [reflexivity|].
  apply (Permutation_in _ (Hperm vss)) in Hv.
  clear Hperm. induction Hparse as [|s w vs vss Hs Hparse IH]; [destruct Hv|].
  destruct Hv as [->|Hv].
  - rewrite (NewVersion_original _ _ Hs). split; [now left|exact Hs].
  - destruct (IH Hv) as [Hin Hok]. split; [now right|exact Hok].
Qed.

Lemma Release_Version_is_normalised_witness :
  Forall (fun r =>
            Version r = semver.Version_String (Semver r) /\
            In (semver.original (Semver r)) ["v1.2.3"; "1.0"] /\
            semver.NewVersion (semver.original (Semver r)) = Ok (Semver r))
    [mkRelease (semver.mkVersion 1 0 0 EmptyString EmptyString "1.0")
               "1.0.0" EmptyString;
     mkRelease (semver.mkVersion 1 2 3 EmptyString EmptyString "v1.2.3")
               "1.2.3" EmptyString].
Proof.
  apply Forall_forall.
  exact (Release_Version_is_normalised Ref.lib ["v1.2.3"; "1.0"] _
           sortCollection_perm eq_refl).
Defined.

(** C9, as the claim states it, fails: the jsonPath source declares the
    description "helm releases" and the releases come back with an empty
    description. *)
Lemma Release_Description_is_not_declared :
  let p := Ref.jsonPathTracker Ref.versionsBody in
  GetterJSONPath.Description (JSONPath (VersionsFrom_ (Spec_ p)))
  = "helm releases" /\
  GetReleases Ref.lib p
  = ([], Ok [mkRelease (semver.mkVersion 1 0 0 EmptyString EmptyString "1.0.0")
                       "1.0.0" EmptyString;
             mkRelease (semver.mkVersion 1 2 3 EmptyString EmptyString "v1.2.3")
                       "1.2.3" EmptyString]) /\
  EmptyString <> "helm releases".
Proof.
  split; [reflexivity|]. split; [reflexivity|]. discriminate.
Qed.

(** C9 (amended).  Whatever the source and the description it declares,
    every release returned by [GetReleases] has an empty [Description]. *)
Theorem Release_Description_is_empty (L : Lib) (p : Tracker)
  (log : list string) (rs : list Release) :
  GetReleases L p = (log, Ok rs) ->
  forall r, In r rs -> Description r = EmptyString.
Proof.
  intros H r Hr.
  now rewrite (GetReleases_semverToRelease L p log rs H r Hr).
Qed.

Lemma Release_Description_is_empty_witness :
  Forall (fun r => Description r = EmptyString)
    [mkRelease (semver.mkVersion 1 0 0 EmptyString EmptyString "1.0.0")
               "1.0.0" EmptyString;
     mkRelease (semver.mkVersion 1 2 3 EmptyString EmptyString "v1.2.3")
               "1.2.3" EmptyString].
Proof.
  apply Forall_forall.
  exact (Release_Description_is_empty Ref.lib
           (Ref.jsonPathTracker Ref.versionsBody) [] _ eq_refl).
Defined.

(** ** The order of the releases *)

(** C10.  With a [sort.Sort] that sorts, every list of releases returned by
    [GetReleases], whichever provider produced it, is in ascending order of
    version: no release is below an earlier one. *)
Theorem GetReleases_ascending (L : Lib) (p : Tracker) (log : list string)
  (rs : list Release) :
  (forall l, StronglySorted semver.ascending (sort_Sort L l)) ->
  GetReleases L p = (log, Ok rs) ->
  StronglySorted (fun a b => semver.ascending (Semver a) (Semver b)) rs.
Proof.
  intros Hsort H.
  apply GetReleases_built in H as (vs & H).
  apply versionsToReleases_Ok in H as (vss & _ & ->).
  specialize (Hsort vss).
  induction Hsort as [|v l Hs IH Hv]; simpl; constructor; [exact IH|].
  apply Forall_map. exact Hv.
Qed.

Lemma GetReleases_ascending_witness :
  StronglySorted (fun a b => semver.ascending (Semver a) (Semver b))
    [mkRelease (semver.mkVersion 1 0 0 EmptyString EmptyString "1.0.0")
               "1.0.0" EmptyString;
     mkRelease (semver.mkVersion 1 2 3 EmptyString EmptyString "v1.2.3")
               "1.2.3" EmptyString].
Proof.
  exact (GetReleases_ascending Ref.lib (Ref.jsonPathTracker Ref.versionsBody)
           [] _ sortCollection_sorted eq_refl).
Defined.

(** Tags in any order come back sorted, a pre-release before its release. *)
Example GetReleases_sorts :
  GetReleases Ref.lib
    (Ref.gitTracker (lines ["2.0.0"; "v1.2.3"; "2.0.0-rc.1"; "0.9.0"])
                    EmptyString 0)
  = ([], Ok [mkRelease (semver.mkVersion 0 9 0 EmptyString EmptyString "0.9.0")
                       "0.9.0" EmptyString;
             mkRelease (semver.mkVersion 1 2 3 EmptyString EmptyString "v1.2.3")
                       "1.2.3" EmptyString;
             mkRelease (semver.mkVersion 2 0 0 "rc.1" EmptyString "2.0.0-rc.1")
                       "2.0.0-rc.1" EmptyString;
             mkRelease (semver.mkVersion 2 0 0 EmptyString EmptyString "2.0.0")
                       "2.0.0" EmptyString]).
Proof.
  reflexivity.
Qed.

(** * Further properties of the code *)

(** ** Selection by [Latest] *)

Section MoreSelection.

Variable L : Lib.
Variable p : Tracker.

(** Where the loop found its candidate: strictly above everything accepted
    before it, not below anything accepted after it. *)
Lemma latestLoop_first (cons : semver.Constraints) (all : list Release) :
  forall v0 l0 v l,
    latestLoop cons all v0 l0 = (v, l) ->
    (v = v0 /\ l = l0) \/
    exists pre r post,
      all = pre ++ r :: post /\ l = Some r /\ v = Semver r /\
      semver.Check cons (Semver r) = true /\
      semver.LessThan v0 (Semver r) = true /\
      (forall r', In r' pre -> semver.Check cons (Semver r') = true ->
                  semver.LessThan (Semver r') (Semver r) = true) /\
      (forall r', In r' post -> semver.Check cons (Semver r') = true ->
                  semver.LessThan (Semver r) (Semver r') = false).
Proof.
  induction all as [|r0 all IH]; simpl; intros v0 l0 v l H.
  - injection H as <- <-. now left.
  - destruct (semver.Check cons (Semver r0)) eqn:Ec; simpl in H.
    + destruct (semver.LessThan v0 (Semver r0)) eqn:El.
      * right.
        destruct (IH _ _ _ _ H)
          as [[-> ->]|(pre & r & post & -> & -> & -> & Hc & Hlt & Hpre & Hpost)].
        -- exists [], r0, all.
           do 5 (split; [solve [auto]|]). split.
           ++ intros r' [].
           ++ intros r' Hin Hc.
              now apply (proj2 (latestLoop_spec _ _ _ _ _ _ H)).
        -- exists (r0 :: pre), r, post.
           do 4 (split; [solve [auto]|]).
           split; [eapply LessThan_trans; eauto|]. split; [|exact Hpost].
           intros r' [<-|Hin] Hc'; auto.
      * destruct (IH _ _ _ _ H)
          as [?|(pre & r & post & -> & -> & -> & Hc & Hlt & Hpre & Hpost)];
          [now left|].
        right. exists (r0 :: pre), r, post.
        do 5 (split; [solve [auto]|]). split; [|exact Hpost].
        intros r' [<-|Hin] Hc'; auto.
        apply LessThan_Lt. apply LessThan_Lt in Hlt.
        apply (tp_le_lt _ tp_Compare (Semver r0) v0 (Semver r)); [|exact Hlt].
        rewrite (tp_antisym _ tp_Compare v0 (Semver r0)).
        unfold semver.LessThan in El.
        destruct (semver.Compare v0 (Semver r0)); simpl; congruence.
    + destruct (IH _ _ _ _ H)
        as [?|(pre & r & post & -> & -> & -> & Hc & Hlt & Hpre & Hpost)];
        [now left|].
      right. exists (r0 :: pre), r, post.
      do 5 (split; [solve [auto]|]). split; [|exact Hpost].
      intros r' [<-|Hin] Hc'; [congruence|auto].
Qed.

(** X1.  The release [Latest] returns sits at a position of the fetched list
    such that every release before it that satisfies the constraint is
    strictly below it, and no release after it that satisfies the constraint
    is above it: among equal maxima the first one wins.  It satisfies the
    constraint itself and is strictly above 0.0.0. *)
Theorem Latest_first_maximum (constraint : string) (cons : semver.Constraints)
  (log log' : list string) (all : list Release) (r : Release) :
  NewConstraint L (effective_constraint constraint) = Ok cons ->
  GetReleases L p = (log, Ok all) ->
  Latest L p constraint = (log', Ok r) ->
  semver.Check cons (Semver r) = true /\
  semver.LessThan semver.zero (Semver r) = true /\
  exists pre post,
    all = pre ++ r :: post /\
    (forall r', In r' pre -> semver.Check cons (Semver r') = true ->
                semver.LessThan (Semver r') (Semver r) = true) /\
    (forall r', In r' post -> semver.Check cons (Semver r') = true ->
                semver.LessThan (Semver r) (Semver r') = false).
Proof.
  intros Hc Ha H. rewrite (Latest_unfold L p _ _ _ _ Hc Ha) in H.
  destruct (latestLoop cons all semver.zero None) as [v l] eqn:E.
  simpl in H. destruct l as [r0|]; [|discriminate].
  injection H as _ <-.
  destruct (latestLoop_first _ _ _ _ _ _ E)
    as [[_ [=]]|(pre & r & post & -> & [= <-] & -> & Hck & Hlt & Hpre & Hpost)].
  split; [exact Hck|]. split; [exact Hlt|]. exists pre, post. auto.
Qed.

(** X2.  Once the constraint compiles and the releases are fetched, [Latest]
    returns a release exactly when some release satisfies the constraint and
    is strictly above 0.0.0; otherwise it returns the "no semver matching"
    error.  The lines logged are those of the fetch. *)
Theorem Latest_succeeds_iff (constraint : string) (cons : semver.Constraints)
  (log : list string) (all : list Release) :
  NewConstraint L (effective_constraint constraint) = Ok cons ->
  GetReleases L p = (log, Ok all) ->
  let eligible :=
    exists r, In r all /\ semver.Check cons (Semver r) = true /\
              semver.LessThan semver.zero (Semver r) = true in
  ((exists r, Latest L p constraint = (log, Ok r)) <-> eligible) /\
  (~ eligible ->
   Latest L p constraint
   = (log, Err (noMatchError L (effective_constraint constraint) all))).
Proof.
  intros Hc Ha eligible. split; [split|].
  - intros [r Hr].
    destruct (Latest_maximal L p _ _ _ _ _ _ Hc Ha Hr) as (Hin & Hck & Hlt & _).
    exists r. auto.
  - intros (r & Hin & Hck & Hlt).
    exact (Latest_finds L p _ _ _ _ r Hc Ha Hin Hck Hlt).
  - intros Hno. apply (Latest_misses_zero L p _ _ _ _ Hc Ha).
    intros r Hin Hck.
    destruct (semver.LessThan semver.zero (Semver r)) eqn:E; [|reflexivity].
    elim Hno. exists r. auto.
Qed.

(** X3.  Failures before the selection.  A constraint that does not compile
    is reported without fetching anything: nothing is logged, whatever the
    provider would do.  With a constraint that compiles, [Latest] logs what
    [GetReleases] logs, and an error of [GetReleases] is returned as it is. *)
Theorem Latest_early_errors (constraint : string) :
  (forall e, NewConstraint L (effective_constraint constraint) = Err e ->
             Latest L p constraint = ([], Err e)) /\
  (forall cons, NewConstraint L (effective_constraint constraint) = Ok cons ->
     fst (Latest L p constraint) = fst (GetReleases L p) /\
     forall e, snd (GetReleases L p) = Err e ->
               snd (Latest L p constraint) = Err e).
Proof.
  split.
  - intros e He. unfold Latest. now rewrite He.
  - intros cons Hc. unfold Latest. rewrite Hc. simpl.
    destruct (GetReleases L p) as [log [all|e|m]]; simpl.
    + destruct (snd (latestLoop cons all semver.zero None)); simpl;
        rewrite app_nil_r; (split; [reflexivity|intros e; discriminate]).
    + split; [reflexivity|intros e0 [= ->]; reflexivity].
    + split; [reflexivity|intros e; discriminate].
Qed.

End MoreSelection.

Lemma Latest_first_maximum_witness :
  let r := mkRelease (semver.mkVersion 1 2 3 EmptyString EmptyString "1.2.3")
                     "1.2.3" EmptyString in
  semver.Check (Ref.comparator Ref.OpGt 1 0 0) (Semver r) = true /\
  semver.LessThan semver.zero (Semver r) = true /\
  exists pre post,
    [mkRelease (semver.mkVersion 1 0 0 EmptyString EmptyString "1.0.0")
               "1.0.0" EmptyString;
     r;
     mkRelease (semver.mkVersion 1 2 3 EmptyString EmptyString "v1.2.3")
               "1.2.3" EmptyString]
    = pre ++ r :: post /\
    (forall r', In r' pre ->
                semver.Check (Ref.comparator Ref.OpGt 1 0 0) (Semver r') = true ->
                semver.LessThan (Semver r') (Semver r) = true) /\
    (forall r', In r' post ->
                semver.Check (Ref.comparator Ref.OpGt 1 0 0) (Semver r') = true ->
                semver.LessThan (Semver r) (Semver r') = false).
Proof.
  cbv zeta.
  apply (Latest_first_maximum Ref.lib
           (Ref.gitTracker (lines ["v1.2.3"; "1.0.0"; "1.2.3"]) EmptyString 0)
           "> 1.0.0" _ [] []).
  - reflexivity.
  - reflexivity.
  - reflexivity.
Defined.

Lemma Latest_succeeds_iff_witness :
  let p := Ref.gitTracker (lines ["0.0.0"; "0.1.0"]) EmptyString 0 in
  let all := [mkRelease (semver.mkVersion 0 0 0 EmptyString EmptyString "0.0.0")
                        "0.0.0" EmptyString;
              mkRelease (semver.mkVersion 0 1 0 EmptyString EmptyString "0.1.0")
                        "0.1.0" EmptyString] in
  let eligible :=
    exists r, In r all /\
              semver.Check (Ref.comparator Ref.OpLt 1 0 0) (Semver r) = true /\
              semver.LessThan semver.zero (Semver r) = true in
  ((exists r, Latest Ref.lib p "< 1.0.0" = ([], Ok r)) <-> eligible) /\
  (~ eligible ->
   Latest Ref.lib p "< 1.0.0"
   = ([], Err (noMatchError Ref.lib (effective_constraint "< 1.0.0") all))).
Proof.
  cbv zeta.
  apply (Latest_succeeds_iff Ref.lib
           (Ref.gitTracker (lines ["0.0.0"; "0.1.0"]) EmptyString 0)
           "< 1.0.0" _ []).
  - reflexivity.
  - reflexivity.
Defined.

Lemma Latest_early_errors_witness :
  Latest Ref.lib (Ref.gitTracker (lines ["1.0.0"]) "warning" 0) "newest"
  = ([], Err "improper constraint: newest").
Proof.
  apply (proj1 (Latest_early_errors Ref.lib
                  (Ref.gitTracker (lines ["1.0.0"]) "warning" 0) "newest")).
  reflexivity.
Defined.

(** ** From version strings to releases *)

Lemma parseFrom_total (L : Lib) (vs : list string) :
  Forall (fun s => exists v, semver.NewVersion s = Ok v) vs ->
  forall i, exists vss, parseFrom L i vs = Ok vss.
Proof.
  induction 1 as [|s vs [v Hv] _ IH]; intros i; simpl; [eauto|].
  rewrite Hv. destruct (IH (S i)) as [vss ->]. simpl. eauto.
Qed.

Lemma Forall2_originals (vs : list string) (vss : list semver.Version) :
  Forall2 (fun s v => semver.NewVersion s = Ok v) vs vss ->
  map semver.original vss = vs.
Proof.
  induction 1 as [|s v vs vss Hs _ IH]; simpl; [reflexivity|].
  now rewrite IH, (NewVersion_original _ _ Hs).
Qed.

(** X4.  [versionsToReleases] succeeds exactly when every string parses as a
    version.  With a [sort.Sort] that permutes, the releases it returns then
    correspond one to one to the given strings: the strings their versions
    were parsed from are the given strings, each as many times as it was
    given (nothing is dropped, nothing is merged). *)
Theorem versionsToReleases_succeeds_iff (L : Lib) (vs : list string) :
  (forall l, Permutation (sort_Sort L l) l) ->
  ((exists rs, versionsToReleases L vs = Ok rs) <->
   Forall (fun s => exists v, semver.NewVersion s = Ok v) vs) /\
  (forall rs, versionsToReleases L vs = Ok rs ->
     List.length rs = List.length vs /\
     Permutation (map (fun r => semver.original (Semver r)) rs) vs).
Proof.
  intros Hperm. split; [split|].
  - intros [rs H]. apply versionsToReleases_Ok in H as (vss & Hparse & _).
    induction Hparse; constructor; eauto.
  - intros Hall. rewrite versionsToReleases_map.
    destruct (parseFrom_total L vs Hall 0%nat) as [vss ->]. simpl. eauto.
  - intros rs H. apply versionsToReleases_Ok in H as (vss & Hparse & ->).
    assert (Horig : map (fun r => semver.original (Semver r))
                        (map semverToRelease (sort_Sort L vss))
                    = map semver.original (sort_Sort L vss))
      by (rewrite map_map; reflexivity).
    split.
    + rewrite length_map, (Permutation_length (Hperm vss)).
      symmetry. eapply Forall2_length; eauto.
    + rewrite Horig, <- (Forall2_originals vs vss Hparse).
      apply Permutation_map, Hperm.
Qed.

Lemma versionsToReleases_succeeds_iff_witness :
  ((exists rs, versionsToReleases Ref.lib ["v2.0.0"; "1.0"; "v2.0.0"] = Ok rs) <->
   Forall (fun s => exists v, semver.NewVersion s = Ok v)
          ["v2.0.0"; "1.0"; "v2.0.0"]) /\
  (forall rs, versionsToReleases Ref.lib ["v2.0.0"; "1.0"; "v2.0.0"] = Ok rs ->
     List.length rs = List.length ["v2.0.0"; "1.0"; "v2.0.0"] /\
     Permutation (map (fun r => semver.original (Semver r)) rs)
                 ["v2.0.0"; "1.0"; "v2.0.0"]).
Proof.
  exact (versionsToReleases_succeeds_iff Ref.lib ["v2.0.0"; "1.0"; "v2.0.0"]
           sortCollection_perm).
Defined.

(** ** Outcomes of the extraction *)

Section ExtractionOutcomes.

Variable L : Lib.

Lemma appendAnyKeys_Ok (typed : list (value * value)) :
  forall vs out, appendAnyKeys typed vs = Ok out ->
  stringKeyed typed = true /\ out = vs ++ anyKeys typed.
Proof.
  induction typed as [|[k x] typed IH]; simpl; intros vs out H.
  - injection H as <-. now rewrite app_nil_r.
  - destruct k; try discriminate.
    destruct (IH _ _ H) as [Hk ->]. simpl.
    split; [exact Hk|]. now rewrite <- app_assoc.
Qed.

Lemma appendAnyKeys_not_Err (typed : list (value * value)) :
  forall vs e, appendAnyKeys typed vs <> Err e.
Proof.
  induction typed as [|[k x] typed IH]; simpl; intros vs e; [discriminate|].
  destruct k; try discriminate. apply IH.
Qed.

Lemma appendAnyKeys_Panic (typed : list (value * value)) :
  forall vs m, appendAnyKeys typed vs = Panic m -> stringKeyed typed = false.
Proof.
  induction typed as [|[k x] typed IH]; simpl; intros vs m H; [discriminate|].
  destruct k; simpl; try reflexivity. eapply IH; eauto.
Qed.

Lemma collect_Ok (raw : list value) :
  forall vs out, collect L raw vs = Ok out ->
  forallb is_string_or_map raw = true /\
  Forall (fun r => keys_are_strings r = true) raw /\
  out = vs ++ flat_map emitted raw.
Proof.
  induction raw as [|r raw IH]; simpl; intros vs out H.
  - injection H as <-. rewrite app_nil_r. auto.
  - destruct r; try discriminate; simpl.
    + destruct (IH _ _ H) as (Hs & Hk & ->).
      split; [exact Hs|]. split; [now constructor|]. now rewrite <- app_assoc.
    + rewrite fold_append_map in H.
      destruct (IH _ _ H) as (Hs & Hk & ->).
      split; [exact Hs|]. split; [now constructor|]. now rewrite <- app_assoc.
    + apply rbind_Ok in H as (vs' & Hkeys & H).
      apply appendAnyKeys_Ok in Hkeys as [Hkeys ->].
      destruct (IH _ _ H) as (Hs & Hk & ->).
      split; [exact Hs|]. split; [now constructor|]. now rewrite <- app_assoc.
Qed.

(** X5.  When the loop over the nodes returns strings, every node was a
    string or a map keyed by strings, and the strings returned are, in order,
    the string nodes and the keys of the map nodes: nothing else of the
    document is ever returned. *)
Theorem collect_returns_only_nodes_and_keys (raw : list value)
  (vs : list string) :
  collect L raw [] = Ok vs ->
  forallb is_string_or_map raw = true /\
  Forall (fun r => keys_are_strings r = true) raw /\
  vs = flat_map emitted raw /\
  forall s, In s vs <-> exists r, In r raw /\ In s (emitted r).
Proof.
  intros H. destruct (collect_Ok raw [] vs H) as (Hs & Hk & ->).
  simpl. repeat split; auto; apply in_flat_map.
Qed.

(** X6.  The loop panics only on a map of type
    [map[interface{}]interface{}] one of whose keys is not a string; on
    nodes whose maps are keyed by strings it never does. *)
Theorem collect_panics_only_on_foreign_key (raw : list value) :
  forall vs m, collect L raw vs = Panic m ->
  exists typed, In (MapAny typed) raw /\ stringKeyed typed = false.
Proof.
  induction raw as [|r raw IH]; simpl; intros vs m H; [discriminate|].
  destruct r; try discriminate;
    try (destruct (IH _ _ H) as (typed & Hin & Hk); eauto).
  destruct (appendAnyKeys m0 vs) as [vs'| |msg] eqn:E; simpl in H.
  - destruct (IH _ _ H) as (typed & Hin & Hk); eauto.
  - discriminate.
  - exists m0. split; [now left|]. eapply appendAnyKeys_Panic; eauto.
Qed.

(** X7.  Failures of [extractVersionStrings] before the nodes are read: an
    error of the key cast or of the query is returned as it is, and a query
    result that is neither a sequence nor a map keyed by strings (a scalar,
    or a map keyed by arbitrary values) is an "unexpected type" error that
    names the path. *)
Theorem extractVersionStrings_early_errors (tmp : value) (jpath : string) :
  (forall e, RecursivelyCastKeysToStrings L tmp = Err e ->
             extractVersionStrings L tmp jpath = Err e) /\
  (forall v e, RecursivelyCastKeysToStrings L tmp = Ok v ->
               jsonpath_Get L jpath v = Err e ->
               extractVersionStrings L tmp jpath = Err e) /\
  (forall v got, RecursivelyCastKeysToStrings L tmp = Ok v ->
                 jsonpath_Get L jpath v = Ok got ->
                 (forall l, got <> Seq l) -> (forall m, got <> MapStr m) ->
                 extractVersionStrings L tmp jpath
                 = Err ("unexpected type of result from jsonpath: " +++ dq
                        +++ jpath +++ dq +++ ": " +++ fmt_v L got)).
Proof.
  unfold extractVersionStrings. split; [|split].
  - intros e ->. reflexivity.
  - intros v e -> H. simpl. now rewrite H.
  - intros v got -> H Hseq Hmap. simpl. rewrite H. simpl.
    destruct got; try reflexivity.
    + now elim (Hseq l).
    + now elim (Hmap m).
Qed.

(** X8.  The "returned nothing" guard covers sequences only.  A query whose
    result is a single map keyed by strings yields the keys of that map, and
    when the map is empty the extraction succeeds with no version string and,
    with a [sort.Sort] that permutes, no release. *)
Theorem extractVersions_map_result (tmp v : value) (jpath : string)
  (m : list (string * value)) :
  (forall l, Permutation (sort_Sort L l) l) ->
  RecursivelyCastKeysToStrings L tmp = Ok v ->
  jsonpath_Get L jpath v = Ok (MapStr m) ->
  extractVersionStrings L tmp jpath = Ok (map fst m) /\
  (m = [] -> extractVersions L tmp jpath = Ok []).
Proof.
  intros Hperm Hcast Hget.
  assert (H : extractVersionStrings L tmp jpath = Ok (map fst m))
    by (eapply extractVersionStrings_MapStr; eauto).
  split; [exact H|].
  intros ->. unfold extractVersions. rewrite H. simpl.
  rewrite versionsToReleases_map. simpl.
  now rewrite (Permutation_nil (Permutation_sym (Hperm []))).
Qed.

End ExtractionOutcomes.

Lemma collect_returns_only_nodes_and_keys_witness :
  let raw := [MapStr [("2.0.0", Nil); ("1.0.0", Nil)]; Str "0.9.0"] in
  forallb is_string_or_map raw = true /\
  Forall (fun r => keys_are_strings r = true) raw /\
  ["2.0.0"; "1.0.0"; "0.9.0"] = flat_map emitted raw /\
  forall s, In s ["2.0.0"; "1.0.0"; "0.9.0"]
            <-> exists r, In r raw /\ In s (emitted r).
Proof.
  exact (collect_returns_only_nodes_and_keys Ref.lib
           [MapStr [("2.0.0", Nil); ("1.0.0", Nil)]; Str "0.9.0"] _ eq_refl).
Defined.

Lemma collect_panics_only_on_foreign_key_witness :
  exists typed,
    In (MapAny typed) [Str "1.0.0"; MapAny [(Str "1.1.0", Nil); (Int 2, Nil)]] /\
    stringKeyed typed = false.
Proof.
  exact (collect_panics_only_on_foreign_key Ref.lib
           [Str "1.0.0"; MapAny [(Str "1.1.0", Nil); (Int 2, Nil)]] [] _ eq_refl).
Defined.

Lemma extractVersionStrings_early_errors_witness :
  extractVersionStrings Ref.lib (MapStr [("version", Str "1.0.0")]) "$.version"
  = Err ("unexpected type of result from jsonpath: " +++ dq +++ "$.version"
         +++ dq +++ ": 1.0.0").
Proof.
  apply (proj2 (proj2 (extractVersionStrings_early_errors Ref.lib
                         (MapStr [("version", Str "1.0.0")]) "$.version"))
           (MapStr [("version", Str "1.0.0")]) (Str "1.0.0"));
    try reflexivity; discriminate.
Defined.

Lemma extractVersions_map_result_witness :
  extractVersionStrings Ref.lib (MapStr [("tags", MapStr [])]) "$.tags"
  = Ok (map fst (@nil (string * value))) /\
  (@nil (string * value) = [] ->
   extractVersions Ref.lib (MapStr [("tags", MapStr [])]) "$.tags" = Ok []).
Proof.
  exact (extractVersions_map_result Ref.lib
           (MapStr [("tags", MapStr [])]) (MapStr [("tags", MapStr [])])
           "$.tags" [] sortCollection_perm eq_refl eq_refl).
Defined.

(** An empty map under the queried key: no error, no release. *)
Example extractVersions_empty_map :
  extractVersions Ref.lib (MapStr [("tags", MapStr [])]) "$.tags" = Ok [].
Proof.
  reflexivity.
Qed.

(** ** Lines of a command's output *)

Lemma Split_no_sep (sep : ascii) (s : string) :
  Forall (fun e => occurs sep e = false) (Split s sep).
Proof.
  induction s as [|c s IH]; simpl; [repeat constructor|].
  destruct (Ascii.eqb c sep) eqn:E; [now constructor|].
  destruct (Split s sep) as [|h t]; [repeat constructor; simpl; now rewrite E|].
  inversion IH as [|? ? Hh Ht]; subst.
  constructor; [simpl; now rewrite E, Hh|exact Ht].
Qed.

Lemma Split_line (sep : ascii) (s r : string) :
  occurs sep s = false ->
  Split (s +++ String sep r) sep = s :: Split r sep.
Proof.
  induction s as [|c s IH]; simpl; intros H.
  - now rewrite Ascii.eqb_refl.
  - apply orb_false_elim in H as [Hc Hs].
    now rewrite Hc, (IH Hs).
Qed.

Lemma Split_lines (ls : list string) :
  Forall (fun e => occurs nl e = false) ls ->
  Split (lines ls) nl = ls ++ [EmptyString].
Proof.
  induction 1 as [|l ls Hl _ IH]; simpl; [reflexivity|].
  now rewrite (Split_line nl l (lines ls) Hl), IH.
Qed.

(** X9.  The entries [exec] returns are never empty and never hold a line
    feed.  Conversely, when the command exits with status zero after
    printing a list of non-empty lines without line feed, each ended by a
    line feed, [exec] returns exactly that list. *)
Theorem exec_entries (p : Tracker) (cmd : string) :
  let run := cmdSite_run p "sh" ["-c"; cmd] in
  (forall entries, snd (exec p cmd) = Ok entries ->
     Forall (fun e => e <> EmptyString /\ occurs nl e = false) entries) /\
  (forall ls, run_status run = 0%Z -> run_stdout run = lines ls ->
     Forall (fun e => e <> EmptyString /\ occurs nl e = false) ls ->
     snd (exec p cmd) = Ok ls).
Proof.
  cbv zeta. rewrite exec_unfold. simpl. split.
  - intros entries H.
    destruct (run_status _ =? 0)%Z; [|discriminate].
    injection H as <-. apply Forall_forall. intros e He.
    apply filter_In in He as [Hin Hne]. split.
    + apply is_empty_false. now destruct (semver.is_empty e).
    + pose proof (Split_no_sep nl (run_stdout (cmdSite_run p "sh" ["-c"; cmd])))
        as Hall.
      rewrite Forall_forall in Hall. now apply Hall.
  - intros ls -> -> Hls. simpl. f_equal.
    rewrite Split_lines by (eapply Forall_impl; [|exact Hls]; now intros e [_ ?]).
    rewrite filter_app. simpl. rewrite app_nil_r.
    apply forallb_filter_id, forallb_forall. intros e He.
    rewrite Forall_forall in Hls. destruct (Hls e He) as [Hne _].
    apply is_empty_false in Hne. now rewrite Hne.
Qed.

Lemma exec_entries_witness :
  snd (exec (Ref.gitTracker (lines ["v1.0.0"; "v1.1.0-rc.1"]) EmptyString 0)
            "git ls-remote --tags git://helm/helm.git")
  = Ok ["v1.0.0"; "v1.1.0-rc.1"].
Proof.
  apply (proj2 (exec_entries
                  (Ref.gitTracker (lines ["v1.0.0"; "v1.1.0-rc.1"]) EmptyString 0)
                  "git ls-remote --tags git://helm/helm.git")).
  - reflexivity.
  - reflexivity.
  - repeat constructor; discriminate.
Defined.

(** ** Providers behind [GetReleases] *)

Section Providers.

Variable L : Lib.
Variable p : Tracker.

Let vf : VersionsFrom := VersionsFrom_ (Spec_ p).

Lemma GetReleases_jsonPath :
  GetterJSONPath.Source (JSONPath vf) <> EmptyString ->
  GetReleases L p = ([], getterJsonPath L p (JSONPath vf)).
Proof.
  intros H. apply is_empty_false in H.
  unfold GetReleases, GetProvider. fold vf. now rewrite H.
Qed.

Lemma GetReleases_docker :
  GetterJSONPath.Source (JSONPath vf) = EmptyString ->
  DockerImageTags.Source (DockerImageTags vf) <> EmptyString ->
  GetReleases L p
  = ([], httpJsonPath L p
           (dockerURL (DockerImageTags.Source (DockerImageTags vf)))
           "$.results[*].name").
Proof.
  intros H1 H2. apply is_empty_false in H2.
  unfold GetReleases, GetProvider. fold vf. now rewrite H1, H2.
Qed.

Lemma GetReleases_git :
  GetterJSONPath.Source (JSONPath vf) = EmptyString ->
  DockerImageTags.Source (DockerImageTags vf) = EmptyString ->
  GitTags.Source (GitTags vf) <> EmptyString ->
  GetReleases L p = execAll L p (gitCommand (GitTags.Source (GitTags vf))).
Proof.
  intros H1 H2 H3. apply is_empty_false in H3.
  unfold GetReleases, GetProvider. fold vf. rewrite H1, H2, H3. simpl.
  now destruct (execAll L p _).
Qed.

Lemma GetReleases_github :
  GetterJSONPath.Source (JSONPath vf) = EmptyString ->
  DockerImageTags.Source (DockerImageTags vf) = EmptyString ->
  GitTags.Source (GitTags vf) = EmptyString ->
  GitHubReleases.Source (GitHubReleases vf) <> EmptyString ->
  GetReleases L p
  = ([], httpJsonPath L p
           (githubURL (GitHubReleases.Host (GitHubReleases vf))
                      (GitHubReleases.Source (GitHubReleases vf)))
           "$[*].tag_name").
Proof.
  intros H1 H2 H3 H4. apply is_empty_false in H4.
  unfold GetReleases, GetProvider. fold vf. now rewrite H1, H2, H3, H4.
Qed.

Lemma GetReleases_none :
  GetterJSONPath.Source (JSONPath vf) = EmptyString ->
  DockerImageTags.Source (DockerImageTags vf) = EmptyString ->
  GitTags.Source (GitTags vf) = EmptyString ->
  GitHubReleases.Source (GitHubReleases vf) = EmptyString ->
  GetReleases L p = ([], Err "no versions provider specified").
Proof.
  intros H1 H2 H3 H4.
  unfold GetReleases, GetProvider. fold vf. now rewrite H1, H2, H3, H4.
Qed.

(** X10.  What [GetReleases] logs.  When the git tags source is the one in
    use (no jsonPath and no dockerImageTags source, a gitTags source) and the
    [git ls-remote] command wrote something on standard error, exactly that
    is logged, as one line; in every other case nothing is logged. *)
Theorem GetReleases_log :
  let run :=
    cmdSite_run p "sh" ["-c"; gitCommand (GitTags.Source (GitTags vf))] in
  fst (GetReleases L p)
  = if semver.is_empty (GetterJSONPath.Source (JSONPath vf))
       && semver.is_empty (DockerImageTags.Source (DockerImageTags vf))
       && negb (semver.is_empty (GitTags.Source (GitTags vf)))
       && negb (semver.is_empty (run_stderr run))
    then [run_stderr run]
    else [].
Proof.
  cbv zeta.
  destruct (string_dec (GetterJSONPath.Source (JSONPath vf)) EmptyString) as [H1|H1].
  2:{ rewrite (GetReleases_jsonPath H1).
      apply is_empty_false in H1. now rewrite H1. }
  destruct (string_dec (DockerImageTags.Source (DockerImageTags vf)) EmptyString)
    as [H2|H2].
  2:{ rewrite (GetReleases_docker H1 H2).
      apply is_empty_false in H2. rewrite H2. now rewrite andb_false_r. }
  destruct (string_dec (GitTags.Source (GitTags vf)) EmptyString) as [H3|H3].
  - assert (Hlog : fst (GetReleases L p) = []).
    { destruct (string_dec (GitHubReleases.Source (GitHubReleases vf))
                           EmptyString) as [H4|H4];
        [now rewrite GetReleases_none|now rewrite GetReleases_github]. }
    rewrite Hlog, H3. simpl. now rewrite andb_false_r.
  - rewrite (GetReleases_git H1 H2 H3).
    rewrite H1, H2. apply is_empty_false in H3. rewrite H3. simpl.
    unfold execAll. rewrite exec_unfold. cbv zeta.
    destruct (semver.is_empty (run_stderr _));
      destruct (run_status _ =? 0)%Z; reflexivity.
Qed.

(** X11.  A failure of the collaborator that fetches or decodes the document
    is the result of [GetReleases], unchanged: the resolver and the file
    system for the jsonPath source, the HTTP getter for the Docker Hub and
    the GitHub sources (at the URL built from the source), the YAML decoder
    for all three. *)
Theorem GetReleases_fetch_errors (e : error) :
  (GetterJSONPath.Source (JSONPath vf) <> EmptyString ->
   (dep_Resolve p (GetterJSONPath.Source (JSONPath vf)) = Err e ->
    GetReleases L p = ([], Err e)) /\
   (forall localCopy,
       dep_Resolve p (GetterJSONPath.Source (JSONPath vf)) = Ok localCopy ->
       (fs_ReadFile p localCopy = Err e -> GetReleases L p = ([], Err e)) /\
       (forall bs, fs_ReadFile p localCopy = Ok bs ->
                   yaml_Unmarshal L bs = Err e ->
                   GetReleases L p = ([], Err e)))) /\
  (GetterJSONPath.Source (JSONPath vf) = EmptyString ->
   DockerImageTags.Source (DockerImageTags vf) <> EmptyString ->
   let url := dockerURL (DockerImageTags.Source (DockerImageTags vf)) in
   (httpGetter_DoRequest p url = Err e -> GetReleases L p = ([], Err e)) /\
   (forall res, httpGetter_DoRequest p url = Ok res ->
                yaml_Unmarshal L res = Err e ->
                GetReleases L p = ([], Err e))) /\
  (GetterJSONPath.Source (JSONPath vf) = EmptyString ->
   DockerImageTags.Source (DockerImageTags vf) = EmptyString ->
   GitTags.Source (GitTags vf) = EmptyString ->
   GitHubReleases.Source (GitHubReleases vf) <> EmptyString ->
   let url := githubURL (GitHubReleases.Host (GitHubReleases vf))
                        (GitHubReleases.Source (GitHubReleases vf)) in
   (httpGetter_DoRequest p url = Err e -> GetReleases L p = ([], Err e)) /\
   (forall res, httpGetter_DoRequest p url = Ok res ->
                yaml_Unmarshal L res = Err e ->
                GetReleases L p = ([], Err e))).
Proof.
  split; [|split].
  - intros H. rewrite (GetReleases_jsonPath H). unfold getterJsonPath. split.
    + now intros ->.
    + intros localCopy ->. simpl. split.
      * now intros ->.
      * intros bs -> Hy. simpl. now rewrite Hy.
  - intros H1 H2 url. rewrite (GetReleases_docker H1 H2).
    unfold httpJsonPath. fold url. split.
    + now intros ->.
    + intros res -> Hy. simpl. now rewrite Hy.
  - intros H1 H2 H3 H4 url. rewrite (GetReleases_github H1 H2 H3 H4).
    unfold httpJsonPath. fold url. split.
    + now intros ->.
    + intros res -> Hy. simpl. now rewrite Hy.
Qed.

End Providers.

Lemma GetReleases_log_witness :
  fst (GetReleases Ref.lib
         (Ref.gitTracker (lines ["1.0.0"]) "warning: redirecting" 0))
  = ["warning: redirecting"].
Proof.
  exact (GetReleases_log Ref.lib
           (Ref.gitTracker (lines ["1.0.0"]) "warning: redirecting" 0)).
Defined.

(** The standard error of a failed command is logged as well. *)
Example GetReleases_log_failed_command :
  GetReleases Ref.lib (Ref.gitTracker EmptyString "fatal: unable to connect" 128)
  = (["fatal: unable to connect"], Err "exit status 128").
Proof.
  reflexivity.
Qed.

Lemma GetReleases_fetch_errors_witness :
  GetReleases Ref.lib
    (mkTracker (Spec_ Ref.dockerTracker) Ref.noFile Ref.noRun Ref.noHttp
               Ref.noFile)
  = ([], Err ("Get https://registry.hub.docker.com/v2/repositories/"
              +++ "library/golang/tags/: no such host")).
Proof.
  apply (proj1 (proj1 (proj2 (GetReleases_fetch_errors Ref.lib
           (mkTracker (Spec_ Ref.dockerTracker) Ref.noFile Ref.noRun Ref.noHttp
                      Ref.noFile) _)) eq_refl ltac:(discriminate))).
  reflexivity.
Defined.

(** ** The constructor *)

Section ConstructorFacts.

Import Constructor.

Context {vfsFS logrLogger vhttpgetGetter depResolver cmdsiteSite : Type}.

Let Fields' : Type :=
  Fields vfsFS logrLogger vhttpgetGetter depResolver cmdsiteSite.
Let Sys' : Type := Sys vfsFS logrLogger vhttpgetGetter depResolver cmdsiteSite.
Let Option' : Type :=
  Option vfsFS logrLogger vhttpgetGetter depResolver cmdsiteSite.

Variable S : Sys'.

Lemma applyOptions_app (a b : list Option') (t : Fields') :
  applyOptions (a ++ b) t = rbind (applyOptions a t) (applyOptions b).
Proof.
  revert t; induction a as [|o a IH]; intros t; simpl; [reflexivity|].
  destruct (o t); simpl; auto.
Qed.

Lemma defaultCollaborators_set (t : Fields') :
  is_nil (Logger (defaultCollaborators S t)) = false /\
  is_nil (fs (defaultCollaborators S t)) = false /\
  is_nil (httpGetter (defaultCollaborators S t)) = false.
Proof.
  unfold defaultCollaborators.
  destruct t as [sp [f|] cs [l|] wd cd gwd gcd [h|] d]; simpl; auto.
Qed.

Lemma defaultCollaborators_dirs (t : Fields') :
  AbsWorkDir (defaultCollaborators S t) = AbsWorkDir t /\
  cacheDir (defaultCollaborators S t) = cacheDir t /\
  GoGetterAbsWorkDir (defaultCollaborators S t) = GoGetterAbsWorkDir t /\
  goGetterCacheDir (defaultCollaborators S t) = goGetterCacheDir t.
Proof.
  unfold defaultCollaborators.
  destruct t as [sp [f|] cs [l|] wd cd gwd gcd [h|] d]; simpl; auto.
Qed.

Lemma defaultWorkDir_Ok (t t' : Fields') :
  defaultWorkDir S t = Ok t' ->
  Logger t' = Logger t /\ fs t' = fs t /\ httpGetter t' = httpGetter t /\
  cacheDir t' = cacheDir t /\
  GoGetterAbsWorkDir t' = GoGetterAbsWorkDir t /\
  goGetterCacheDir t' = goGetterCacheDir t /\
  (if semver.is_empty (AbsWorkDir t)
   then exists path, os_Getwd S = Ok path /\
                     filepath_Abs S path = Ok (AbsWorkDir t')
   else AbsWorkDir t' = AbsWorkDir t).
Proof.
  unfold defaultWorkDir.
  destruct (semver.is_empty (AbsWorkDir t)).
  - intros H. apply rbind_Ok in H as (path & Hp & H).
    apply rbind_Ok in H as (abs & Ha & [= <-]). simpl.
    repeat split; auto. eauto.
  - intros [= <-]. auto 8.
Qed.

(** Case analysis on the tests of [defaultDirs]. *)
Ltac dirs_cases :=
  repeat (cbn in *;
          match goal with
          | |- context [semver.is_empty ?x] =>
              is_var x; destruct (semver.is_empty x)
          | |- context [filepath_IsAbs ?S ?x] =>
              destruct (filepath_IsAbs S x) eqn:?
          end); cbn in *.

Lemma defaultDirs_kept (t : Fields') :
  Logger (defaultDirs S t) = Logger t /\ fs (defaultDirs S t) = fs t /\
  httpGetter (defaultDirs S t) = httpGetter t /\
  AbsWorkDir (defaultDirs S t) = AbsWorkDir t.
Proof.
  unfold defaultDirs.
  destruct t as [sp f cs l wd cd gwd gcd h d].
  dirs_cases; repeat split.
Qed.

(** The directories after the defaults, from the directories before. *)
Lemma defaultDirs_dirs (t : Fields') :
  let c := if semver.is_empty (cacheDir t)
           then ".variant/mod/cache" else cacheDir t in
  let g := if semver.is_empty (goGetterCacheDir t) then c
           else goGetterCacheDir t in
  let gw := if semver.is_empty (GoGetterAbsWorkDir t) then AbsWorkDir t
            else GoGetterAbsWorkDir t in
  GoGetterAbsWorkDir (defaultDirs S t) = gw /\
  cacheDir (defaultDirs S t)
  = (if filepath_IsAbs S c then c else filepath_Join S (AbsWorkDir t) c) /\
  goGetterCacheDir (defaultDirs S t)
  = (if filepath_IsAbs S g then g else filepath_Join S gw g).
Proof.
  unfold defaultDirs.
  destruct t as [sp f cs l wd cd gwd gcd h d].
  dirs_cases; repeat split; congruence.
Qed.

(** [New] once the options and the working directory went through. *)
Lemma New_unfold (conf : Spec) (opts : list Option') (t0 t1 : Fields') :
  applyOptions opts (initial S) = Ok t0 ->
  defaultWorkDir S (defaultCollaborators S t0) = Ok t1 ->
  let d := defaultDirs S t1 in
  New S conf opts
  = ([initEntry d],
     rbind (depresolver_New S (cacheDir d) (goGetterCacheDir d) (Logger d) (fs d))
           (fun r => Ok (with_Spec (with_dep d (Some r)) conf))).
Proof.
  intros H0 H1 d. unfold New. rewrite H0, H1. fold d.
  destruct (defaultWorkDir_Ok _ _ H1) as (Hl & _).
  destruct (defaultDirs_kept t1) as (Hl' & _).
  destruct (defaultCollaborators_set t0) as (Hn & _).
  fold d in Hl'. rewrite <- Hl, <- Hl' in Hn.
  destruct (Logger d); [reflexivity|discriminate].
Qed.

Lemma New_Ok (conf : Spec) (opts : list Option') (log : list LogEntry)
  (t : Fields') :
  New S conf opts = (log, Ok t) ->
  exists t0 t1 r,
    applyOptions opts (initial S) = Ok t0 /\
    defaultWorkDir S (defaultCollaborators S t0) = Ok t1 /\
    let d := defaultDirs S t1 in
    depresolver_New S (cacheDir d) (goGetterCacheDir d) (Logger d) (fs d) = Ok r /\
    t = with_Spec (with_dep d (Some r)) conf /\ log = [initEntry d].
Proof.
  intros H.
  destruct (applyOptions opts (initial S)) as [t0| |] eqn:H0;
    [|unfold New in H; rewrite H0 in H; discriminate..].
  destruct (defaultWorkDir S (defaultCollaborators S t0)) as [t1| |] eqn:H1;
    [|unfold New in H; rewrite H0, H1 in H; discriminate..].
  rewrite (New_unfold conf opts t0 t1 H0 H1) in H.
  injection H as <- H. apply rbind_Ok in H as (r & Hr & [= <-]).
  exists t0, t1, r. auto.
Qed.

(** X12.  When an option fails, [New] returns the error of the first option
    that fails, and logs nothing: the options after it, the defaults and the
    resolver are not reached. *)
Theorem New_option_error (conf : Spec) (before after : list Option')
  (o : Option') (t : Fields') (e : error) :
  applyOptions before (initial S) = Ok t ->
  o t = Err e ->
  New S conf (before ++ o :: after) = ([], Err e).
Proof.
  intros Hb Ho. unfold New.
  rewrite applyOptions_app, Hb. simpl. now rewrite Ho.
Qed.

(** X13.  What a tracker returned by [New] holds, whatever the options did:
    its [Spec] is the given one, no collaborator is nil, its resolver is the
    one [depresolver.New] built for its own cache directories, logger and
    file system, and exactly one line was logged, which records its four
    directories. *)
Theorem New_success (conf : Spec) (opts : list Option')
  (log : list LogEntry) (t : Fields') :
  New S conf opts = (log, Ok t) ->
  Spec_ t = conf /\
  is_nil (Logger t) = false /\ is_nil (fs t) = false /\
  is_nil (httpGetter t) = false /\
  (exists r, dep t = Some r /\
             depresolver_New S (cacheDir t) (goGetterCacheDir t)
                             (Logger t) (fs t) = Ok r) /\
  log = [("releasechannel.init",
          [("workdir", AbsWorkDir t); ("cachedir", cacheDir t);
           ("gogetterworkdir", GoGetterAbsWorkDir t);
           ("gogettercachedir", goGetterCacheDir t)])].
Proof.
  intros H.
  destruct (New_Ok _ _ _ _ H) as (t0 & t1 & r & H0 & H1 & Hr & -> & ->).
  destruct (defaultWorkDir_Ok _ _ H1) as (Hl & Hf & Hh & _).
  destruct (defaultDirs_kept t1) as (Hl' & Hf' & Hh' & _).
  destruct (defaultCollaborators_set t0) as (Hn1 & Hn2 & Hn3).
  simpl. rewrite Hl', Hf', Hh', Hl, Hf, Hh.
  repeat split; auto.
  exists r. split; [reflexivity|]. now rewrite <- Hl, <- Hl', <- Hf, <- Hf'.
Qed.

(** X14.  If joining to an absolute directory gives an absolute path and
    [filepath.Abs] returns absolute paths, then, when the options leave each
    working directory empty or absolute, the four directories of the tracker
    returned by [New] are absolute. *)
Theorem New_dirs_absolute (conf : Spec) (opts : list Option')
  (log : list LogEntry) (t0 t : Fields') :
  (forall a b, filepath_IsAbs S a = true ->
               filepath_IsAbs S (filepath_Join S a b) = true) ->
  (forall path a, filepath_Abs S path = Ok a -> filepath_IsAbs S a = true) ->
  applyOptions opts (initial S) = Ok t0 ->
  (AbsWorkDir t0 = EmptyString \/ filepath_IsAbs S (AbsWorkDir t0) = true) ->
  (GoGetterAbsWorkDir t0 = EmptyString \/
   filepath_IsAbs S (GoGetterAbsWorkDir t0) = true) ->
  New S conf opts = (log, Ok t) ->
  filepath_IsAbs S (AbsWorkDir t) = true /\
  filepath_IsAbs S (GoGetterAbsWorkDir t) = true /\
  filepath_IsAbs S (cacheDir t) = true /\
  filepath_IsAbs S (goGetterCacheDir t) = true.
Proof.
  intros Hjoin Habs H0 Hw Hg H.
  destruct (New_Ok _ _ _ _ H) as (t0' & t1 & r & H0' & H1 & _ & -> & _).
  rewrite H0 in H0'. injection H0' as <-. simpl.
  destruct (defaultWorkDir_Ok _ _ H1) as (_ & _ & _ & _ & Hgw & _ & Hwd).
  destruct (defaultCollaborators_dirs t0) as (Dw & _ & Dg & _).
  rewrite Dw in Hwd. rewrite Dg in Hgw.
  assert (Aw : filepath_IsAbs S (AbsWorkDir t1) = true).
  { destruct (semver.is_empty (AbsWorkDir t0)) eqn:E.
    - destruct Hwd as (path & _ & Ha). eapply Habs; eauto.
    - rewrite Hwd. destruct Hw as [Hw|Hw]; [|exact Hw].
      apply is_empty_true in Hw. congruence. }
  destruct (defaultDirs_kept t1) as (_ & _ & _ & Kw).
  destruct (defaultDirs_dirs t1) as (Eg & Ec & Egc).
  assert (Ag : filepath_IsAbs S (GoGetterAbsWorkDir (defaultDirs S t1)) = true).
  { rewrite Eg, Hgw.
    destruct (semver.is_empty (GoGetterAbsWorkDir t0)) eqn:E; [exact Aw|].
    destruct Hg as [Hg|Hg]; [|exact Hg].
    apply is_empty_true in Hg. congruence. }
  rewrite Kw. split; [exact Aw|]. split; [exact Ag|]. split.
  - rewrite Ec.
    match goal with
    | |- context [if ?c then _ else _] => destruct c eqn:E; auto
    end.
  - rewrite Egc.
    match goal with
    | |- context [if filepath_IsAbs S ?x then _ else _] =>
        destruct (filepath_IsAbs S x) eqn:E; auto
    end.
    apply Hjoin. now rewrite <- Eg.
Qed.

(** X15.  The cache directories of the tracker returned by [New].  The cache
    directory is the one the options set, or [.variant/mod/cache], joined to
    the working directory when relative.  A go-getter cache directory that
    the options left empty is that same configured directory, taken before
    it was made absolute, and is joined to the working directory of
    go-getter, itself the working directory unless the options set it. *)
Theorem New_cache_dirs (conf : Spec) (opts : list Option')
  (log : list LogEntry) (t0 t : Fields') :
  applyOptions opts (initial S) = Ok t0 ->
  New S conf opts = (log, Ok t) ->
  let c := if semver.is_empty (cacheDir t0)
           then ".variant/mod/cache" else cacheDir t0 in
  let g := if semver.is_empty (goGetterCacheDir t0) then c
           else goGetterCacheDir t0 in
  GoGetterAbsWorkDir t
  = (if semver.is_empty (GoGetterAbsWorkDir t0) then AbsWorkDir t
     else GoGetterAbsWorkDir t0) /\
  cacheDir t
  = (if filepath_IsAbs S c then c else filepath_Join S (AbsWorkDir t) c) /\
  goGetterCacheDir t
  = (if filepath_IsAbs S g then g
     else filepath_Join S (GoGetterAbsWorkDir t) g).
Proof.
  intros H0 H.
  destruct (New_Ok _ _ _ _ H) as (t0' & t1 & r & H0' & H1 & _ & -> & _).
  rewrite H0 in H0'. injection H0' as <-. simpl.
  destruct (defaultWorkDir_Ok _ _ H1) as (_ & _ & _ & Hc & Hgw & Hgc & _).
  destruct (defaultCollaborators_dirs t0) as (_ & Dc & Dg & Dgc).
  rewrite Dc in Hc. rewrite Dg in Hgw. rewrite Dgc in Hgc.
  destruct (defaultDirs_kept t1) as (_ & _ & _ & Kw).
  destruct (defaultDirs_dirs t1) as (Eg & Ec & Egc).
  rewrite Hc, Hgw, Hgc in *. rewrite Kw, Eg, Ec, Egc. auto.
Qed.

(** X16.  Failures of [New] after the options.  With a working directory
    left empty, an error of [os.Getwd] or of [filepath.Abs] is returned and
    nothing is logged.  An error of [depresolver.New] is returned after the
    line recording the directories was logged. *)
Theorem New_late_errors (conf : Spec) (opts : list Option')
  (t0 : Fields') (e : error) :
  applyOptions opts (initial S) = Ok t0 ->
  (AbsWorkDir t0 = EmptyString ->
   (os_Getwd S = Err e -> New S conf opts = ([], Err e)) /\
   (forall path, os_Getwd S = Ok path -> filepath_Abs S path = Err e ->
                 New S conf opts = ([], Err e))) /\
  (forall t1,
      defaultWorkDir S (defaultCollaborators S t0) = Ok t1 ->
      let d := defaultDirs S t1 in
      depresolver_New S (cacheDir d) (goGetterCacheDir d) (Logger d) (fs d)
      = Err e ->
      New S conf opts = ([initEntry d], Err e)).
Proof.
  intros H0. split.
  - intros Hw.
    assert (Hd : defaultWorkDir S (defaultCollaborators S t0)
                 = rbind (os_Getwd S) (fun path =>
                     rbind (filepath_Abs S path) (fun abs =>
                       Ok (with_AbsWorkDir (defaultCollaborators S t0) abs)))).
    { unfold defaultWorkDir.
      destruct (defaultCollaborators_dirs t0) as (-> & _). now rewrite Hw. }
    split.
    + intros Hg. unfold New. rewrite H0, Hd, Hg. reflexivity.
    + intros path Hg Ha. unfold New. rewrite H0, Hd, Hg. simpl.
      now rewrite Ha.
  - intros t1 H1 d Hr. rewrite (New_unfold conf opts t0 t1 H0 H1).
    fold d. now rewrite Hr.
Qed.

End ConstructorFacts.

Lemma RefSys_join_abs (a b : string) :
  RefSys.isAbs a = true -> RefSys.isAbs (RefSys.join a b) = true.
Proof.
  destruct a as [|c a]; [discriminate|]. simpl. auto.
Qed.

Lemma RefSys_abs_abs (path a : string) :
  RefSys.abs path = Ok a -> RefSys.isAbs a = true.
Proof.
  unfold RefSys.abs. intros [= <-].
  destruct (RefSys.isAbs path) eqn:E; [exact E|reflexivity].
Qed.

Lemma New_option_error_witness :
  Constructor.New RefSys.sys (Spec_ Ref.dockerTracker)
    ([RefSys.cacheDirOption "cache"]
     ++ RefSys.failingOption "unknown option"
     :: [RefSys.goGetterWorkDirOption "/gg"])
  = ([], Err "unknown option").
Proof.
  exact (New_option_error RefSys.sys (Spec_ Ref.dockerTracker)
           [RefSys.cacheDirOption "cache"] [RefSys.goGetterWorkDirOption "/gg"]
           (RefSys.failingOption "unknown option") _ "unknown option"
           eq_refl eq_refl).
Defined.

Lemma New_success_witness :
  let t := Constructor.mkFields (Spec_ Ref.dockerTracker)
             (Some "HostOSFS") (Some "cmdsite") (Some "klogr")
             "/work" "/work/cache" "/gg" "/gg/cache" (Some "vhttpget")
             (Some "/work/cache:/gg/cache") in
  Constructor.Spec_ t = Spec_ Ref.dockerTracker /\
  Constructor.is_nil (Constructor.Logger t) = false /\
  Constructor.is_nil (Constructor.fs t) = false /\
  Constructor.is_nil (Constructor.httpGetter t) = false /\
  (exists r, Constructor.dep t = Some r /\
             Constructor.depresolver_New RefSys.sys
               (Constructor.cacheDir t) (Constructor.goGetterCacheDir t)
               (Constructor.Logger t) (Constructor.fs t) = Ok r) /\
  [("releasechannel.init",
    [("workdir", "/work"); ("cachedir", "/work/cache");
     ("gogetterworkdir", "/gg"); ("gogettercachedir", "/gg/cache")])]
  = [("releasechannel.init",
      [("workdir", Constructor.AbsWorkDir t);
       ("cachedir", Constructor.cacheDir t);
       ("gogetterworkdir", Constructor.GoGetterAbsWorkDir t);
       ("gogettercachedir", Constructor.goGetterCacheDir t)])].
Proof.
  exact (New_success RefSys.sys (Spec_ Ref.dockerTracker)
           [RefSys.cacheDirOption "cache"; RefSys.goGetterWorkDirOption "/gg"]
           _ _ eq_refl).
Defined.

Lemma New_dirs_absolute_witness :
  let t := Constructor.mkFields (Spec_ Ref.dockerTracker)
             (Some "HostOSFS") (Some "cmdsite") (Some "klogr")
             "/work" "/work/cache" "/gg" "/gg/cache" (Some "vhttpget")
             (Some "/work/cache:/gg/cache") in
  RefSys.isAbs (Constructor.AbsWorkDir t) = true /\
  RefSys.isAbs (Constructor.GoGetterAbsWorkDir t) = true /\
  RefSys.isAbs (Constructor.cacheDir t) = true /\
  RefSys.isAbs (Constructor.goGetterCacheDir t) = true.
Proof.
  exact (New_dirs_absolute RefSys.sys (Spec_ Ref.dockerTracker)
           [RefSys.cacheDirOption "cache"; RefSys.goGetterWorkDirOption "/gg"]
           _ _ _ RefSys_join_abs RefSys_abs_abs eq_refl
           (or_introl eq_refl) (or_intror eq_refl) eq_refl).
Defined.

Lemma New_cache_dirs_witness :
  let t := Constructor.mkFields (Spec_ Ref.dockerTracker)
             (Some "HostOSFS") (Some "cmdsite") (Some "klogr")
             "/work" "/work/cache" "/gg" "/gg/cache" (Some "vhttpget")
             (Some "/work/cache:/gg/cache") in
  Constructor.GoGetterAbsWorkDir t = "/gg" /\
  Constructor.cacheDir t = RefSys.join (Constructor.AbsWorkDir t) "cache" /\
  Constructor.goGetterCacheDir t
  = RefSys.join (Constructor.GoGetterAbsWorkDir t) "cache".
Proof.
  exact (New_cache_dirs RefSys.sys (Spec_ Ref.dockerTracker)
           [RefSys.cacheDirOption "cache"; RefSys.goGetterWorkDirOption "/gg"]
           _ _ _ eq_refl eq_refl).
Defined.

Lemma New_late_errors_witness :
  Constructor.New RefSys.readOnlySys (Spec_ Ref.dockerTracker) []
  = ([("releasechannel.init",
       [("workdir", "/work"); ("cachedir", "/work/.variant/mod/cache");
        ("gogetterworkdir", "/work");
        ("gogettercachedir", "/work/.variant/mod/cache")])],
     Err "mkdir /work/.variant/mod/cache: read-only file system").
Proof.
  exact (proj2 (New_late_errors RefSys.readOnlySys (Spec_ Ref.dockerTracker) []
                  _ _ eq_refl) _ eq_refl eq_refl).
Defined.
